(** * StruktosLogger: a shallow embedding of [src/core/StruktosLogger.ts]

    The logger is a class with two private fields ([options],
    [childMetadata]) and an arrow-function property ([defaultOutput]).
    Its methods read a wall clock ([new Date()]), query an ambient request
    context ([RequestContext.current()]) and call a user supplied sink
    ([options.output]) that may throw.  The embedding keeps these effects:
    methods are computations over a [State] made of the object heap, the
    world outside the logger and the list of sink invocations, and they
    end by returning or by throwing.  Two builtins the class calls can
    throw as well, [String(error)] in [serializeError] and
    [JSON.stringify(entry)] in [defaultOutput]; what they do beyond the
    values modelled here is left to an [Engine]. *)

From Stdlib Require Import ZArith String List Bool Lia.
From stdpp Require Import base option gmap strings list fin_maps.

Set Warnings "-register-all".

Local Open Scope string_scope.
Local Open Scope Z_scope.

(** ** JavaScript values

    [LogMetadata] maps string keys to [any]; the second argument of
    [error()] is [Error | unknown].  The values below are the ones the
    logger distinguishes: the falsy primitives, strings, numbers (integer
    valued, and NaN), plain objects, and instances of [Error].  An [Error]
    is given by what the code reads off it: [error.name], [error.message],
    [error.stack] (whatever the property lookup yields, [JUndefined] when
    there is none) and its enumerable own properties, which is what
    [Object.keys(error)] walks.  No value is a function. *)

Inductive JsVal : Type :=
| JUndefined
| JNull
| JBool (b : bool)
| JNum (n : Z)
| JNaN
| JStr (s : string)
| JObj (props : gmap string JsVal)
| JError (name message stack : JsVal) (own : gmap string JsVal).

(** A metadata object ([LogMetadata]): own enumerable string keys. *)
Abbreviation Metadata := (gmap string JsVal).

(** ToBoolean, as used by [if (x)], [!x], [x && y] and [x || y]. *)
Definition truthy (v : JsVal) : bool :=
  match v with
  | JUndefined | JNull | JNaN => false
  | JBool b => b
  | JNum n => negb (n =? 0)
  | JStr s => negb (String.eqb s "")
  | JObj _ | JError _ _ _ _ => true
  end.

(** [x == null]: the two nullish values. *)
Definition nullish (v : JsVal) : bool :=
  match v with
  | JUndefined | JNull => true
  | _ => false
  end.

(** [error instanceof Error]. *)
Definition instanceofError (v : JsVal) : bool :=
  match v with
  | JError _ _ _ _ => true
  | _ => false
  end.

(** Decimal digits of a natural number, most significant first. *)
Fixpoint digits_fuel (fuel : nat) (n : N) (acc : string) : string :=
  match fuel with
  | O => acc
  | S fuel' =>
      let d := String (Ascii.ascii_of_N (48 + N.modulo n 10)) acc in
      if N.ltb n 10 then d else digits_fuel fuel' (N.div n 10) d
  end.

Definition decimal (n : N) : string :=
  digits_fuel (S (N.to_nat (N.log2 n))) n "".

(** Object spread [{...a, ...b}]: the keys of [b] override those of [a].
    stdpp's union keeps the left operand on a collision. *)
Definition spread (a b : Metadata) : Metadata := b ∪ a.

(** Spreading an optional argument: [...undefined] contributes nothing. *)
Definition spread_opt (a : Metadata) (b : option Metadata) : Metadata :=
  match b with
  | Some m => spread a m
  | None => a
  end.

(** ** Levels and records ([interfaces/ILogger.ts]) *)

(** [type LogLevel = 'debug' | 'info' | 'warn' | 'error'] *)
Inductive LogLevel : Type := Debug | Info | Warn | Err.

(** [const LOG_LEVELS: Record<LogLevel, number>] *)
Definition LOG_LEVELS (l : LogLevel) : Z :=
  match l with
  | Debug => 0
  | Info => 1
  | Warn => 2
  | Err => 3
  end.

(** The string [new Date().toISOString()] returns, kept as the instant it
    renders (milliseconds since the epoch). *)
Record IsoString : Type := toISOString { instant : Z }.

(** [interface LogEntry]: the three required fields and the optional ones,
    [None] when the property was never assigned. *)
Record LogEntry : Type := mkEntry {
  e_level : LogLevel;
  e_message : string;
  e_timestamp : IsoString;
  e_metadata : option Metadata;
  e_traceId : option JsVal;
  e_requestId : option JsVal;
  e_userId : option JsVal;
  e_error : option JsVal
}.

(** [Partial<LogEntry>] as built by [extractContextData]. *)
Record ContextData : Type := mkContextData {
  cd_traceId : option JsVal;
  cd_requestId : option JsVal;
  cd_userId : option JsVal
}.

Definition noContextData : ContextData := mkContextData None None None.

(** [Object.assign(entry, contextData)]: every own key of [contextData]
    is written to [entry]. *)
Definition Object_assign (entry : LogEntry) (cd : ContextData) : LogEntry :=
  {| e_level := e_level entry;
     e_message := e_message entry;
     e_timestamp := e_timestamp entry;
     e_metadata := e_metadata entry;
     e_traceId := from_option Some (e_traceId entry) (cd_traceId cd);
     e_requestId := from_option Some (e_requestId entry) (cd_requestId cd);
     e_userId := from_option Some (e_userId entry) (cd_userId cd);
     e_error := e_error entry |}.

Definition set_metadata (entry : LogEntry) (m : Metadata) : LogEntry :=
  {| e_level := e_level entry;
     e_message := e_message entry;
     e_timestamp := e_timestamp entry;
     e_metadata := Some m;
     e_traceId := e_traceId entry;
     e_requestId := e_requestId entry;
     e_userId := e_userId entry;
     e_error := e_error entry |}.

Definition set_error (entry : LogEntry) (v : JsVal) : LogEntry :=
  {| e_level := e_level entry;
     e_message := e_message entry;
     e_timestamp := e_timestamp entry;
     e_metadata := e_metadata entry;
     e_traceId := e_traceId entry;
     e_requestId := e_requestId entry;
     e_userId := e_userId entry;
     e_error := Some v |}.

(** ** The world around the logger *)

(** Result of a call into code the logger does not own. *)
Inductive Lookup (A : Type) : Type :=
| Yields (a : A)
| Raises (exn : JsVal).
Arguments Yields {A} a.
Arguments Raises {A} exn.

(** The object [RequestContext.current()] hands out: only its [get(key)]
    method is used. *)
Record RequestContext : Type := mkContext { get : string -> Lookup JsVal }.

(** [JSON.stringify(entry, null, indent)], kept symbolic. *)
Record JsonText : Type := JSON_stringify { json_value : LogEntry; json_indent : Z }.

Inductive ConsoleMethod : Type :=
| console_debug | console_info | console_warn | console_error | console_log.

(** Heap addresses of the objects the class allocates. *)
Abbreviation loc := nat.

(** ** Builtins of the language

    What the class takes from the JavaScript engine and this development
    does not compute: how a number outside the safe integers prints, which
    exception a failed conversion to a primitive raises, and when
    [JSON.stringify] raises (a cyclic structure, a BigInt). *)
Class Engine : Type := {
  Number_toString : Z -> string;
  conversion_error : JsVal;
  stringify_error : LogEntry -> Z -> option JsVal
}.

Section Builtins.

Context {engine : Engine}.

(** [String(v)], the textual rendering of a value, which can throw.
    A safe integer prints its decimal digits.  An object is converted
    through its [toString]: the inherited one gives [[object Object]] for a
    plain object and name and message for an [Error]; an own [toString]
    property is not callable here (no value of [JsVal] is a function), the
    inherited [valueOf] returns the object itself, and the conversion
    raises a [TypeError]. *)
Fixpoint String_ (v : JsVal) : Lookup string :=
  match v with
  | JUndefined => Yields "undefined"
  | JNull => Yields "null"
  | JBool true => Yields "true"
  | JBool false => Yields "false"
  | JNum n =>
      Yields
        (if Z.abs n <? 2 ^ 53
         then if n <? 0 then "-" ++ decimal (Z.to_N (- n)) else decimal (Z.to_N n)
         else Number_toString n)
  | JNaN => Yields "NaN"
  | JStr s => Yields s
  | JObj props =>
      match props !! "toString" with
      | Some _ => Raises conversion_error
      | None => Yields "[object Object]"
      end
  | JError name message _ own =>
      match own !! "toString" with
      | Some _ => Raises conversion_error
      | None =>
          match (match name with JUndefined => Yields "Error" | _ => String_ name end) with
          | Raises exn => Raises exn
          | Yields n =>
              match (match message with JUndefined => Yields "" | _ => String_ message end) with
              | Raises exn => Raises exn
              | Yields m =>
                  Yields (if String.eqb n "" then m
                          else if String.eqb m "" then n
                          else n ++ ": " ++ m)
              end
          end
      end
  end.

End Builtins.

Section Logger.

(** Whatever state user sinks keep for themselves, and the engine. *)
Context {Ext : Type} {engine : Engine}.

Record World : Type := mkWorld {
  now : Z;                                        (* the wall clock, in ms *)
  current : Lookup (option RequestContext);       (* RequestContext.current() *)
  console : list (ConsoleMethod * JsonText);      (* lines written so far *)
  ext : Ext
}.

(** How a call of a sink ends. *)
Inductive Completion : Type :=
| Normal
| Throw (exn : JsVal).

(** The function stored in [options.output]: a function of the caller, or
    the [defaultOutput] arrow function of some logger instance, which
    closes over that instance's [this]. *)
Inductive Output : Type :=
| Custom (f : LogEntry -> World -> Completion * World)
| DefaultOutputOf (self : loc).

(** [interface StruktosLoggerOptions]: every field optional. *)
Record StruktosLoggerOptions : Type := mkOptions {
  opt_minLevel : option LogLevel;
  opt_prettyPrint : option bool;
  opt_includeStackTrace : option bool;
  opt_defaultMetadata : option Metadata;
  opt_output : option Output;
  opt_enrichWithContext : option bool
}.

(** [Required<StruktosLoggerOptions>], the type of [this.options]. *)
Record RequiredOptions : Type := mkRequired {
  minLevel : LogLevel;
  prettyPrint : bool;
  includeStackTrace : bool;
  defaultMetadata : Metadata;
  output : Output;
  enrichWithContext : bool
}.

(** A [Required<...>] value read as a [StruktosLoggerOptions], which is how
    [child] passes [this.options] to the constructor. *)
Definition as_options (o : RequiredOptions) : StruktosLoggerOptions :=
  {| opt_minLevel := Some (minLevel o);
     opt_prettyPrint := Some (prettyPrint o);
     opt_includeStackTrace := Some (includeStackTrace o);
     opt_defaultMetadata := Some (defaultMetadata o);
     opt_output := Some (output o);
     opt_enrichWithContext := Some (enrichWithContext o) |}.

(** The empty object literal [{}] used as default argument. *)
Definition no_options : StruktosLoggerOptions :=
  mkOptions None None None None None None.

(** Heap objects: the object literals assigned to [this.options], and the
    logger instances with their two private fields.  Metadata objects are
    only ever read and spread into fresh literals, so they are held by
    value. *)
Inductive HeapObj : Type :=
| OptionsObj (o : RequiredOptions)
| LoggerObj (options : loc) (childMetadata : Metadata).

Record State : Type := mkState {
  heap : list HeapObj;
  world : World;
  sinkCalls : list LogEntry      (* arguments of [options.output(...)], oldest first *)
}.

(** ** Computations: state passing with exceptions *)

Inductive Result (A : Type) : Type :=
| Returned (a : A) (s : State)
| Thrown (exn : JsVal) (s : State).
Arguments Returned {A} a s.
Arguments Thrown {A} exn s.

Definition M (A : Type) : Type := State -> Result A.

Definition ret {A} (a : A) : M A := fun s => Returned a s.

Definition bind {A B} (m : M A) (k : A -> M B) : M B :=
  fun s =>
    match m s with
    | Returned a s' => k a s'
    | Thrown exn s' => Thrown exn s'
    end.

(** [try { body } catch (e) { handler(e) }] *)
Definition try_catch {A} (body : M A) (handler : JsVal -> M A) : M A :=
  fun s =>
    match body s with
    | Returned a s' => Returned a s'
    | Thrown exn s' => handler exn s'
    end.

(** stdpp's monad notations ([x ← m; k], [m ≫= k]) for [M]. *)
#[global] Instance M_ret : MRet M := @ret.
#[global] Instance M_bind : MBind M := fun A B k m => bind m k.

(** *** Primitive steps *)

(** Dereferencing something that is not the expected object; JavaScript
    raises a [TypeError]. *)
Definition TypeError : JsVal :=
  JError (JStr "TypeError") (JStr "Cannot read properties of undefined") JUndefined ∅.

(** The two private fields of the instance [this]. *)
Definition read_logger (this : loc) : M (loc * Metadata) :=
  fun s =>
    match heap s !! this with
    | Some (LoggerObj a cm) => Returned (a, cm) s
    | _ => Thrown TypeError s
    end.

Definition read_options (a : loc) : M RequiredOptions :=
  fun s =>
    match heap s !! a with
    | Some (OptionsObj o) => Returned o s
    | _ => Thrown TypeError s
    end.

(** [this.options] *)
Definition this_options (this : loc) : M RequiredOptions :=
  '(a, _) ← read_logger this; read_options a.

(** [this.childMetadata] *)
Definition this_childMetadata (this : loc) : M Metadata :=
  '(_, cm) ← read_logger this; mret cm.

(** [new Date().toISOString()] *)
Definition Date_toISOString : M IsoString :=
  fun s => Returned (toISOString (now (world s))) s.

(** [RequestContext.current()] *)
Definition RequestContext_current : M (option RequestContext) :=
  fun s =>
    match current (world s) with
    | Yields c => Returned c s
    | Raises exn => Thrown exn s
    end.

(** [context.get(key)] *)
Definition context_get (context : RequestContext) (key : string) : M JsVal :=
  fun s =>
    match get context key with
    | Yields v => Returned v s
    | Raises exn => Thrown exn s
    end.

(** A call of a builtin that returns or throws. *)
Definition call {A} (r : Lookup A) : M A :=
  fun s =>
    match r with
    | Yields a => Returned a s
    | Raises exn => Thrown exn s
    end.

(** [JSON.stringify(entry, null, indent)] *)
Definition JSON_stringify_call (entry : LogEntry) (indent : Z) : M JsonText :=
  fun s =>
    match stringify_error entry indent with
    | Some exn => Thrown exn s
    | None => Returned (JSON_stringify entry indent) s
    end.

(** [console.<method>(json)] *)
Definition console_write (method : ConsoleMethod) (json : JsonText) : M unit :=
  fun s =>
    Returned tt
      {| heap := heap s;
         world := {| now := now (world s);
                     current := current (world s);
                     console := console (world s) ++ [(method, json)];
                     ext := ext (world s) |};
         sinkCalls := sinkCalls s |}.

(** ** [class StruktosLogger] *)

(** [private defaultOutput = (entry) => { ... }], for the instance [self]
    the arrow function closes over.  The [default:] branch of the switch
    ([console.log]) cannot be reached: [LogLevel] has four values. *)
Definition defaultOutput (self : loc) (entry : LogEntry) : M unit :=
  o ← this_options self;
  json ← JSON_stringify_call entry (if prettyPrint o then 2 else 0);
  match e_level entry with
  | Debug => console_write console_debug json
  | Info => console_write console_info json
  | Warn => console_write console_warn json
  | Err => console_write console_error json
  end.

(** Calling a stored output function.  The call is appended to
    [sinkCalls] before the function body runs. *)
Definition call_output (out : Output) (entry : LogEntry) : M unit :=
  fun s =>
    let s1 := {| heap := heap s; world := world s;
                 sinkCalls := sinkCalls s ++ [entry] |} in
    match out with
    | Custom f =>
        let '(c, w) := f entry (world s1) in
        let s2 := {| heap := heap s1; world := w; sinkCalls := sinkCalls s1 |} in
        match c with
        | Normal => Returned tt s2
        | Throw exn => Thrown exn s2
        end
    | DefaultOutputOf self => defaultOutput self entry s1
    end.

(** [constructor(options = {}, childMetadata = {})].  The options literal
    and the instance are two fresh heap objects; the instance is the
    second, so that [this.defaultOutput] can be named in the literal.
    [||] and [??] both come down to "the given value, if given": a level
    name, an object and a function are truthy. *)
Definition new_StruktosLogger
    (options : StruktosLoggerOptions) (childMetadata : Metadata) : M loc :=
  fun s =>
    let a := length (heap s) in
    let this := S a in
    let resolved :=
      {| minLevel := default Info (opt_minLevel options);
         prettyPrint := default false (opt_prettyPrint options);
         includeStackTrace := default true (opt_includeStackTrace options);
         defaultMetadata := default ∅ (opt_defaultMetadata options);
         output := default (DefaultOutputOf this) (opt_output options);
         enrichWithContext := default true (opt_enrichWithContext options) |} in
    Returned this
      {| heap := heap s ++ [OptionsObj resolved; LoggerObj a childMetadata];
         world := world s;
         sinkCalls := sinkCalls s |}.

(** [private shouldLog(level)] *)
Definition shouldLog (this : loc) (level : LogLevel) : M bool :=
  o ← this_options this;
  mret (LOG_LEVELS level >=? LOG_LEVELS (minLevel o)).

(** [private extractContextData()] *)
Definition extractContextData : M ContextData :=
  try_catch
    (context ← RequestContext_current;
     match context with
     | None => mret noContextData
     | Some context =>
         let contextData := noContextData in
         traceId ← context_get context "traceId";
         let contextData :=
           if truthy traceId
           then mkContextData (Some traceId) (cd_requestId contextData) (cd_userId contextData)
           else contextData in
         requestId ← context_get context "requestId";
         let contextData :=
           if truthy requestId
           then mkContextData (cd_traceId contextData) (Some requestId) (cd_userId contextData)
           else contextData in
         userId ← context_get context "userId";
         let contextData :=
           if truthy userId
           then mkContextData (cd_traceId contextData) (cd_requestId contextData) (Some userId)
           else contextData in
         mret contextData
     end)
    (fun _ => mret noContextData).

(** [private serializeError(error)]: [undefined] or an object literal. *)
Definition serializeError (this : loc) (error : JsVal) : M (option Metadata) :=
  if negb (truthy error) then mret None
  else
    match error with
    | JError name message stack own =>
        let serialized : Metadata := <["message" := message]> {["name" := name]} in
        o ← this_options this;
        let serialized :=
          if includeStackTrace o && truthy stack
          then <["stack" := stack]> serialized
          else serialized in
        mret
          (Some
             (map_fold
                (fun key value (serialized : Metadata) =>
                   if bool_decide (key ≠ "name")
                      && bool_decide (key ≠ "message")
                      && bool_decide (key ≠ "stack")
                   then <[key := value]> serialized
                   else serialized)
                serialized own))
    | _ =>
        message ← call (String_ error);
        mret (Some {["message" := JStr message]})
    end.

(** [private buildLogEntry(level, message, metadata?)] *)
Definition buildLogEntry
    (this : loc) (level : LogLevel) (message : string)
    (metadata : option Metadata) : M LogEntry :=
  timestamp ← Date_toISOString;
  let entry := mkEntry level message timestamp None None None None None in
  o ← this_options this;
  entry ← (if enrichWithContext o
           then contextData ← extractContextData;
                mret (Object_assign entry contextData)
           else mret entry);
  o ← this_options this;
  childMetadata ← this_childMetadata this;
  let allMetadata :=
    spread_opt (spread (spread ∅ (defaultMetadata o)) childMetadata) metadata in
  if (0 <? size allMetadata)%nat
  then
    let error := default JUndefined (allMetadata !! "error") in
    let restMetadata := delete "error" allMetadata in
    let entry :=
      if (0 <? size restMetadata)%nat then set_metadata entry restMetadata else entry in
    let entry := if truthy error then set_error entry error else entry in
    mret entry
  else mret entry.

(** [private log(level, message, metadata?)] *)
Definition log
    (this : loc) (level : LogLevel) (message : string)
    (metadata : option Metadata) : M unit :=
  ok ← shouldLog this level;
  if negb ok then mret tt
  else
    entry ← buildLogEntry this level message metadata;
    o ← this_options this;
    call_output (output o) entry.

Definition debug (this : loc) (message : string) (metadata : option Metadata) : M unit :=
  log this Debug message metadata.

Definition info (this : loc) (message : string) (metadata : option Metadata) : M unit :=
  log this Info message metadata.

Definition warn (this : loc) (message : string) (metadata : option Metadata) : M unit :=
  log this Warn message metadata.

(** [error(message, error?, metadata?)]; an omitted [error] is
    [JUndefined]. *)
Definition error
    (this : loc) (message : string) (err : JsVal)
    (metadata : option Metadata) : M unit :=
  errorData ← serializeError this err;
  let mergedMetadata :=
    spread_opt (spread_opt ∅ metadata)
      ((fun errorData => {["error" := JObj errorData]}) <$> errorData) in
  log this Err message (Some mergedMetadata).

(** [child(metadata)] *)
Definition child (this : loc) (metadata : Metadata) : M loc :=
  childMetadata ← this_childMetadata this;
  let mergedMetadata := spread (spread ∅ childMetadata) metadata in
  o ← this_options this;
  new_StruktosLogger (as_options o) mergedMetadata.

(** [createLogger(options?)] *)
Definition createLogger (options : option StruktosLoggerOptions) : M loc :=
  new_StruktosLogger (default no_options options) ∅.

(** ** Calls through the public interface *)

(** One call of a logging method of [ILogger]. *)
Inductive Call : Type :=
| call_debug (message : string) (metadata : option Metadata)
| call_info (message : string) (metadata : option Metadata)
| call_warn (message : string) (metadata : option Metadata)
| call_error (message : string) (err : JsVal) (metadata : option Metadata).

Definition call_level (c : Call) : LogLevel :=
  match c with
  | call_debug _ _ => Debug
  | call_info _ _ => Info
  | call_warn _ _ => Warn
  | call_error _ _ _ => Err
  end.

Definition call_message (c : Call) : string :=
  match c with
  | call_debug m _ | call_info m _ | call_warn m _ | call_error m _ _ => m
  end.

(** The metadata argument the caller wrote. *)
Definition call_metadata (c : Call) : option Metadata :=
  match c with
  | call_debug _ md | call_info _ md | call_warn _ md | call_error _ _ md => md
  end.

(** ** Reading the results

    The definitions below name what the methods evaluate to; the lemmas
    further down relate them to the code. *)

Implicit Types (s : State) (o : RequiredOptions).
Implicit Types (this a : loc) (cm : Metadata) (c : Call).

Definition invoke this c : M unit :=
  match c with
  | call_debug m md => debug this m md
  | call_info m md => info this m md
  | call_warn m md => warn this m md
  | call_error m e md => error this m e md
  end.

(** The state a computation ends in. *)
Definition state_of {A} (r : Result A) : State :=
  match r with
  | Returned _ s | Thrown _ s => s
  end.

(** The value a computation returns, if it returns. *)
Definition returned {A} (r : Result A) : option A :=
  match r with
  | Returned x _ => Some x
  | Thrown _ _ => None
  end.

(** A computation that leaves every heap object as it found it and
    allocates nothing. *)
Definition writes_no_heap {A} (m : M A) : Prop :=
  ∀ s, heap (state_of (m s)) = heap s.

(** [this] is a logger instance of the heap whose [options] field points
    at the options object [o] stored at [a], and whose [childMetadata]
    field is [cm]. *)
Definition is_logger s this a o cm : Prop :=
  heap s !! this = Some (LoggerObj a cm) ∧ heap s !! a = Some (OptionsObj o).

(** The map [allMetadata] of [buildLogEntry]: default, then child, then
    per-call metadata. *)
Definition merged o cm (metadata : option Metadata) : Metadata :=
  spread_opt (spread (spread ∅ (defaultMetadata o)) cm) metadata.

(** What [extractContextData] evaluates to in a given world. *)
Definition contextData_of (w : World) : ContextData :=
  match current w with
  | Yields (Some context) =>
      match get context "traceId", get context "requestId", get context "userId" with
      | Yields t, Yields r, Yields u =>
          mkContextData (if truthy t then Some t else None)
                        (if truthy r then Some r else None)
                        (if truthy u then Some u else None)
      | _, _, _ => noContextData
      end
  | _ => noContextData
  end.

(** What [buildLogEntry] evaluates to for a logger with options [o] and
    child metadata [cm]. *)
Definition entry_of o cm (w : World)
    (level : LogLevel) (message : string) (metadata : option Metadata) : LogEntry :=
  let base := mkEntry level message (toISOString (now w)) None None None None None in
  let enriched :=
    if enrichWithContext o then Object_assign base (contextData_of w) else base in
  let all := merged o cm metadata in
  if (0 <? size all)%nat then
    let rest := delete "error" all in
    let with_md := if (0 <? size rest)%nat then set_metadata enriched rest else enriched in
    if truthy (default JUndefined (all !! "error"))
    then set_error with_md (default JUndefined (all !! "error"))
    else with_md
  else enriched.

(** What [serializeError] evaluates to. *)
Definition serialized_of o (err : JsVal) : Lookup (option Metadata) :=
  if truthy err then
    match err with
    | JError name message stack own =>
        Yields
          (Some (filter (λ kv, kv.1 ≠ "name" ∧ kv.1 ≠ "message" ∧ kv.1 ≠ "stack") own
                 ∪ (if includeStackTrace o && truthy stack
                    then <["stack" := stack]> (<["message" := message]> {["name" := name]})
                    else <["message" := message]> {["name" := name]})))
    | _ =>
        match String_ err with
        | Yields message => Yields (Some {["message" := JStr message]})
        | Raises exn => Raises exn
        end
    end
  else Yields None.

(** The metadata [error()] hands to [log], given what [serializeError]
    returned. *)
Definition error_metadata (errorData : option Metadata) (metadata : option Metadata)
    : Metadata :=
  spread_opt (spread_opt ∅ metadata) ((λ d, {["error" := JObj d]}) <$> errorData).

(** The metadata argument that reaches [log] for a call, if the call gets
    that far. *)
Definition log_metadata o c : Lookup (option Metadata) :=
  match c with
  | call_error _ e md =>
      match serialized_of o e with
      | Yields errorData => Yields (Some (error_metadata errorData md))
      | Raises exn => Raises exn
      end
  | _ => Yields (call_metadata c)
  end.

(** A value [String()] converts without throwing. *)
Definition convertible (v : JsVal) : Prop := ∃ text, String_ v = Yields text.

(** A call that gets as far as [log]: every [debug], [info] and [warn]
    call, and an [error] call whose error value [serializeError] can
    handle: a falsy value, an [Error], or a value [String()] converts. *)
Definition reaches_log c : Prop :=
  match c with
  | call_error _ e _ => truthy e = false ∨ instanceofError e = true ∨ convertible e
  | _ => True
  end.


(** Every [options] field of an instance points at an options object, and
    every stored [defaultOutput] belongs to an instance of the heap. *)
Definition heap_wf s : Prop :=
  (∀ l a cm, heap s !! l = Some (LoggerObj a cm) →
     ∃ o, heap s !! a = Some (OptionsObj o))
  ∧ (∀ a o self, heap s !! a = Some (OptionsObj o) →
       output o = DefaultOutputOf self →
       ∃ a' cm', heap s !! self = Some (LoggerObj a' cm')).

(** An [output] option a caller can pass: nothing, a function of its own,
    or the [defaultOutput] of an instance that exists. *)
Definition output_ok s (out : option Output) : Prop :=
  match out with
  | Some (DefaultOutputOf self) => ∃ a cm, heap s !! self = Some (LoggerObj a cm)
  | _ => True
  end.

(** Several calls on the same logger, one after the other. *)
Fixpoint invoke_all this (calls : list Call) : M unit :=
  match calls with
  | [] => mret tt
  | c :: calls => invoke this c;; invoke_all this calls
  end.

End Logger.

Arguments Returned {Ext A} a s.
Arguments Thrown {Ext A} exn s.

(** ** Sample configurations

    Concrete loggers and worlds on which the statements below are run.
    The sinks keep no state of their own. *)

(** A sink that returns normally. *)
Definition quiet_sink : Output (Ext:=unit) := Custom (λ _ w, (Normal, w)).


(** No ambient context is active. *)
Definition world_without_context : World (Ext:=unit) :=
  mkWorld 1000 (Yields None) [] tt.

(** A context with a trace id, an empty request id and no user id. *)
Definition sample_context : RequestContext :=
  mkContext (λ key,
    if String.eqb key "traceId" then Yields (JStr "trace-123")
    else if String.eqb key "requestId" then Yields (JStr "")
    else Yields JUndefined).

Definition world_with_context : World (Ext:=unit) :=
  mkWorld 1000 (Yields (Some sample_context)) [] tt.

Definition empty_state (w : World (Ext:=unit)) : State := mkState [] w [].

(** [new StruktosLogger({ minLevel: 'warn', output })]: the instance is
    at address 1, its options at address 0. *)
Definition warn_options : RequiredOptions (Ext:=unit) :=
  mkRequired Warn false true ∅ quiet_sink true.

Definition warn_state : State :=
  state_of
    (createLogger (Some (mkOptions (Some Warn) None None None (Some quiet_sink) None))
       (empty_state world_without_context)).

(** [createLogger({ defaultMetadata: {a:1,b:1}, output })] followed by
    [child({b:2,c:2})]: the child is at address 3, its options at 2. *)
Definition merge_options : RequiredOptions (Ext:=unit) :=
  mkRequired Info false true {["a" := JNum 1; "b" := JNum 1]} quiet_sink true.

Definition merge_state : State :=
  state_of
    ((parent ← createLogger
        (Some (mkOptions None None None (Some {["a" := JNum 1; "b" := JNum 1]})
                 (Some quiet_sink) None));
      child parent {["b" := JNum 2; "c" := JNum 2]})
       (empty_state world_without_context)).

(** [createLogger({ output })]: every other option at its default. *)
Definition plain_options : RequiredOptions (Ext:=unit) :=
  mkRequired Info false true ∅ quiet_sink true.

Definition plain_state : State :=
  state_of
    (createLogger (Some (mkOptions None None None None (Some quiet_sink) None))
       (empty_state world_without_context)).

(** [createLogger({ defaultMetadata: {error: "earlier failure"}, output })] *)
Definition tagged_options : RequiredOptions (Ext:=unit) :=
  mkRequired Info false true {["error" := JStr "earlier failure"]} quiet_sink true.

Definition tagged_state : State :=
  state_of
    (createLogger
       (Some (mkOptions None None None (Some {["error" := JStr "earlier failure"]})
                (Some quiet_sink) None))
       (empty_state world_without_context)).

(** [new Error("boom")] with an extra field [code]. *)
Definition boom : JsVal :=
  JError (JStr "Error") (JStr "boom") (JStr "Error: boom at main.ts:1:1")
    {["code" := JStr "E_BOOM"]}.



(** The plain logger, in a world with an active context. *)
Definition context_state : State :=
  state_of
    (createLogger (Some (mkOptions None None None None (Some quiet_sink) None))
       (empty_state world_with_context)).


(** [createLogger({ enrichWithContext: false, output })] inside an active
    context. *)
Definition silent_options : RequiredOptions (Ext:=unit) :=
  mkRequired Info false true ∅ quiet_sink false.

Definition silent_state : State :=
  state_of
    (createLogger (Some (mkOptions None None None None (Some quiet_sink) (Some false)))
       (empty_state world_with_context)).

(** Two loggers in one heap: the plain one at address 1, and one created
    with [includeStackTrace: false] at address 3. *)
Definition stackless_options : RequiredOptions (Ext:=unit) :=
  mkRequired Info false false ∅ quiet_sink true.

Definition two_loggers_state : State :=
  state_of
    (createLogger (Some (mkOptions None None (Some false) None (Some quiet_sink) None))
       plain_state).

(** An engine for the samples: [JSON.stringify] succeeds, a failed
    conversion raises a [TypeError] without further detail. *)
Definition sample_engine : Engine :=
  {| Number_toString := λ n, "";        (* no sample prints such a number *)
     conversion_error :=
       JError (JStr "TypeError") (JStr "Cannot convert object to primitive value")
         JUndefined ∅;
     stringify_error := λ _ _, None |}.

(** [{toString: 1}]: an object [String()] cannot convert. *)
Definition unprintable : JsVal := JObj {["toString" := JNum 1]}.

Section LoggerFacts.

Context {Ext : Type} {engine : Engine}.
Implicit Types (s st : State (Ext:=Ext)) (o : RequiredOptions (Ext:=Ext)).
Implicit Types (this a : loc) (cm : Metadata) (c : Call).

(** *** Unfolding the monad *)

Lemma bind_Returned {A B} (m : M A) (k : A → M B) s x s' :
  m s = Returned x s' → (m ≫= k) s = k x s'.
Proof. intros H. unfold mbind, M_bind, bind. by rewrite H. Qed.

Lemma bind_Thrown {A B} (m : M A) (k : A → M B) s exn s' :
  m s = Thrown exn s' → (m ≫= k) s = Thrown exn s'.
Proof. intros H. unfold mbind, M_bind, bind. by rewrite H. Qed.

Lemma mret_Returned {A} (x : A) s : (mret x : M A) s = Returned x s.
Proof. reflexivity. Qed.

Lemma this_options_ok s this a o cm :
  is_logger s this a o cm → this_options this s = Returned o s.
Proof.
  intros [Hl Ho]. unfold this_options.
  erewrite bind_Returned; last by (unfold read_logger; rewrite Hl).
  unfold read_options. by rewrite Ho.
Qed.

Lemma this_childMetadata_ok s this a o cm :
  is_logger s this a o cm → this_childMetadata this s = Returned cm s.
Proof.
  intros [Hl _]. unfold this_childMetadata.
  erewrite bind_Returned; last by (unfold read_logger; rewrite Hl).
  reflexivity.
Qed.

Lemma shouldLog_ok s this a o cm level :
  is_logger s this a o cm →
  shouldLog this level s = Returned (LOG_LEVELS level >=? LOG_LEVELS (minLevel o)) s.
Proof.
  intros H. unfold shouldLog.
  erewrite bind_Returned; last by eapply this_options_ok.
  reflexivity.
Qed.

(** [extractContextData] always returns, and leaves the state alone. *)
Lemma extractContextData_ok s :
  extractContextData s = Returned (contextData_of (world s)) s.
Proof.
  unfold extractContextData, try_catch, contextData_of.
  unfold mbind, M_bind, bind, RequestContext_current, context_get.
  destruct (current (world s)) as [[context|]|exn]; try reflexivity.
  destruct (get context "traceId") as [t|]; try reflexivity.
  destruct (get context "requestId") as [r|]; try reflexivity.
  destruct (get context "userId") as [u|]; try reflexivity.
  simpl. by destruct (truthy t), (truthy r), (truthy u).
Qed.

Lemma buildLogEntry_ok s this a o cm level message metadata :
  is_logger s this a o cm →
  buildLogEntry this level message metadata s
  = Returned (entry_of o cm (world s) level message metadata) s.
Proof.
  intros H. unfold buildLogEntry.
  erewrite bind_Returned; last by reflexivity.
  erewrite bind_Returned; last by eapply this_options_ok.
  unfold entry_of, merged.
  destruct (enrichWithContext o).
  - erewrite bind_Returned; last first.
    { erewrite bind_Returned; last by apply extractContextData_ok.
      reflexivity. }
    erewrite bind_Returned; last by eapply this_options_ok.
    erewrite bind_Returned; last by eapply this_childMetadata_ok.
    repeat match goal with |- context [if ?b then _ else _] => destruct b end;
      reflexivity.
  - erewrite bind_Returned; last by reflexivity.
    erewrite bind_Returned; last by eapply this_options_ok.
    erewrite bind_Returned; last by eapply this_childMetadata_ok.
    repeat match goal with |- context [if ?b then _ else _] => destruct b end;
      reflexivity.
Qed.

(** The [forEach] loop of [serializeError] copies exactly the own keys
    that pass its test, on top of what [serialized] already holds. *)
Lemma forEach_copy (base own : Metadata) :
  map_fold
    (fun key value (serialized : Metadata) =>
       if bool_decide (key ≠ "name") && bool_decide (key ≠ "message")
          && bool_decide (key ≠ "stack")
       then <[key := value]> serialized
       else serialized)
    base own
  = filter (λ kv, kv.1 ≠ "name" ∧ kv.1 ≠ "message" ∧ kv.1 ≠ "stack") own ∪ base.
Proof.
  apply (map_fold_weak_ind (λ r (m : Metadata),
    r = filter (λ kv, kv.1 ≠ "name" ∧ kv.1 ≠ "message" ∧ kv.1 ≠ "stack") m ∪ base)).
  - by rewrite map_filter_empty, (left_id_L ∅ (∪)).
  - intros key value m r Hfresh ->.
    destruct (bool_decide (key ≠ "name")) eqn:E1;
      destruct (bool_decide (key ≠ "message")) eqn:E2;
      destruct (bool_decide (key ≠ "stack")) eqn:E3; simpl;
      try apply bool_decide_eq_true in E1;
      try apply bool_decide_eq_true in E2;
      try apply bool_decide_eq_true in E3;
      try apply bool_decide_eq_false in E1;
      try apply bool_decide_eq_false in E2;
      try apply bool_decide_eq_false in E3.
    1: { rewrite map_filter_insert_True by done. by rewrite insert_union_l. }
    all: rewrite map_filter_insert_not by (simpl; intros ?; tauto); done.
Qed.

Lemma call_bind {A B} (r : Lookup A) (k : A → M B) s :
  (call r ≫= k) s
  = match r with
    | Yields x => k x s
    | Raises exn => Thrown exn s
    end.
Proof. unfold mbind, M_bind, bind, call. by destruct r. Qed.

(** [serializeError] returns what [serialized_of] yields, and throws what
    it raises, in an unchanged state. *)
Lemma serializeError_ok s this a o cm err :
  is_logger s this a o cm →
  serializeError this err s = call (serialized_of o err) s.
Proof.
  intros H. unfold serializeError, serialized_of.
  destruct (truthy err) eqn:T; simpl; [|reflexivity].
  destruct err;
    try (rewrite call_bind; match goal with |- context [String_ ?v] =>
           by destruct (String_ v) end).
  erewrite bind_Returned; last by eapply this_options_ok.
  rewrite mret_Returned. unfold call. do 2 f_equal.
  destruct (includeStackTrace o && truthy err3); apply forEach_copy.
Qed.

Lemma log_ok s this a o cm level message metadata :
  is_logger s this a o cm →
  log this level message metadata s
  = if LOG_LEVELS level >=? LOG_LEVELS (minLevel o)
    then call_output (output o) (entry_of o cm (world s) level message metadata) s
    else Returned tt s.
Proof.
  intros H. unfold log.
  erewrite bind_Returned; last by eapply shouldLog_ok.
  destruct (LOG_LEVELS level >=? LOG_LEVELS (minLevel o)); simpl; [|reflexivity].
  erewrite bind_Returned; last by eapply buildLogEntry_ok.
  erewrite bind_Returned; last by eapply this_options_ok.
  reflexivity.
Qed.

(** Every method of the interface comes down to one [log]. *)
Lemma invoke_ok s this a o cm c :
  is_logger s this a o cm →
  invoke this c s
  = match log_metadata o c with
    | Yields metadata =>
        if LOG_LEVELS (call_level c) >=? LOG_LEVELS (minLevel o)
        then call_output (output o)
               (entry_of o cm (world s) (call_level c) (call_message c) metadata) s
        else Returned tt s
    | Raises exn => Thrown exn s
    end.
Proof.
  intros H. destruct c; simpl; unfold debug, info, warn, error;
    try by eapply log_ok.
  pose proof (serializeError_ok s this a o cm err H) as Hser. unfold call in Hser.
  destruct (serialized_of o err) as [errorData|exn].
  - erewrite bind_Returned; last by exact Hser.
    by eapply log_ok.
  - erewrite bind_Thrown; last by exact Hser.
    reflexivity.
Qed.

(** A call that reaches [log] has its metadata. *)
Lemma reaches_log_metadata o c :
  reaches_log c → ∃ metadata, log_metadata o c = Yields metadata.
Proof.
  destruct c as [m md|m md|m md|m e md]; simpl; try by eauto.
  unfold serialized_of. intros [Hfalsy|[Herror|[text Htext]]].
  - rewrite Hfalsy. eauto.
  - destruct e; try discriminate. simpl. eauto.
  - destruct (truthy e); [|by eauto].
    destruct e; simpl in *; try (rewrite Htext); eauto.
Qed.


(** The level of [error()] passes every threshold. *)
Lemma error_level_passes (l : LogLevel) : (LOG_LEVELS Err >=? LOG_LEVELS l) = true.
Proof. by destruct l. Qed.

(** Reading [this.options] does not change the state. *)
Lemma this_options_state this s : state_of (this_options this s) = s.
Proof.
  unfold this_options, read_logger, read_options, mbind, M_bind, bind.
  destruct (heap s !! this) as [[o'|a' cm']|]; simpl; try reflexivity.
  destruct (heap s !! a') as [[o'|a'' cm'']|]; reflexivity.
Qed.

(** [defaultOutput] writes to the console only. *)
Lemma defaultOutput_frame self entry s :
  heap (state_of (defaultOutput self entry s)) = heap s
  ∧ sinkCalls (state_of (defaultOutput self entry s)) = sinkCalls s.
Proof.
  unfold defaultOutput.
  pose proof (this_options_state self s) as Hs.
  destruct (this_options self s) as [o' s'|exn s'] eqn:E; simpl in Hs; subst s'.
  - erewrite bind_Returned; last by exact E.
    unfold mbind, M_bind, bind, JSON_stringify_call.
    destruct (stringify_error _ _); [done|].
    by destruct (e_level entry).
  - erewrite bind_Thrown; last by exact E.
    done.
Qed.

(** A call of the output function is recorded once, whatever the function
    does, and the heap is not written. *)
Lemma call_output_sinkCalls (out : Output) entry s :
  sinkCalls (state_of (call_output out entry s)) = (sinkCalls s ++ [entry])%list.
Proof.
  unfold call_output. destruct out as [f|self]; simpl.
  - destruct (f entry (world s)) as [[|exn] w]; reflexivity.
  - by rewrite (proj2 (defaultOutput_frame _ _ _)).
Qed.

Lemma call_output_heap (out : Output) entry s :
  heap (state_of (call_output out entry s)) = heap s.
Proof.
  unfold call_output. destruct out as [f|self]; simpl.
  - destruct (f entry (world s)) as [[|exn] w]; reflexivity.
  - by rewrite (proj1 (defaultOutput_frame _ _ _)).
Qed.

(** *** The fields of the record *)

Lemma size_pos_nonempty (m : Metadata) : (0 <? size m)%nat = bool_decide (m ≠ ∅).
Proof.
  destruct (decide (m = ∅)) as [->|Hne].
  - rewrite map_size_empty. rewrite bool_decide_eq_false_2; [done|]. by intros [].
  - rewrite bool_decide_eq_true_2 by done.
    apply Nat.ltb_lt. pose proof (proj2 (map_size_non_empty_iff m) Hne). lia.
Qed.

Lemma entry_of_metadata o cm w level message metadata :
  e_metadata (entry_of o cm w level message metadata)
  = if decide (delete "error" (merged o cm metadata) = ∅) then None
    else Some (delete "error" (merged o cm metadata)).
Proof.
  unfold entry_of. rewrite !size_pos_nonempty.
  destruct (decide (merged o cm metadata = ∅)) as [E|E].
  - rewrite E, delete_empty. rewrite bool_decide_eq_false_2 by (by intros []).
    rewrite decide_True by done.
    by destruct (enrichWithContext o).
  - rewrite bool_decide_eq_true_2 by done.
    destruct (decide (delete "error" (merged o cm metadata) = ∅)) as [E'|E'].
    + rewrite bool_decide_eq_false_2 by (by intros []).
      destruct (truthy _), (enrichWithContext o); reflexivity.
    + rewrite bool_decide_eq_true_2 by done.
      destruct (truthy _), (enrichWithContext o); reflexivity.
Qed.

Lemma entry_of_error o cm w level message metadata :
  e_error (entry_of o cm w level message metadata)
  = match merged o cm metadata !! "error" with
    | Some v => if truthy v then Some v else None
    | None => None
    end.
Proof.
  unfold entry_of. rewrite !size_pos_nonempty.
  destruct (decide (merged o cm metadata = ∅)) as [E|E].
  - rewrite E, lookup_empty. rewrite bool_decide_eq_false_2 by (by intros []).
    by destruct (enrichWithContext o).
  - rewrite bool_decide_eq_true_2 by done.
    destruct (merged o cm metadata !! "error") as [v|]; simpl.
    + destruct (truthy v), (bool_decide _), (enrichWithContext o); reflexivity.
    + destruct (bool_decide _), (enrichWithContext o); reflexivity.
Qed.

Lemma entry_of_base o cm w level message metadata :
  e_level (entry_of o cm w level message metadata) = level
  ∧ e_message (entry_of o cm w level message metadata) = message
  ∧ e_timestamp (entry_of o cm w level message metadata) = toISOString (now w).
Proof.
  unfold entry_of.
  repeat match goal with |- context [if ?b then _ else _] => destruct b end; done.
Qed.

Lemma entry_of_context o cm w level message metadata :
  let entry := entry_of o cm w level message metadata in
  let found := if enrichWithContext o then contextData_of w else noContextData in
  e_traceId entry = cd_traceId found
  ∧ e_requestId entry = cd_requestId found
  ∧ e_userId entry = cd_userId found.
Proof.
  unfold entry_of.
  destruct (enrichWithContext o);
    repeat match goal with |- context [if ?b then _ else _] => destruct b end;
    simpl; by destruct (contextData_of w) as [[?|] [?|] [?|]].
Qed.

(** Lookup in the merged map: per-call first, then child, then default. *)
Lemma merged_lookup o cm metadata key :
  merged o cm metadata !! key
  = match default ∅ metadata !! key with
    | Some v => Some v
    | None => match cm !! key with
              | Some v => Some v
              | None => defaultMetadata o !! key
              end
    end.
Proof.
  unfold merged, spread_opt, spread.
  destruct metadata as [md|]; simpl.
  - rewrite !lookup_union, lookup_empty.
    destruct (md !! key), (cm !! key), (defaultMetadata o !! key); reflexivity.
  - rewrite !lookup_union, !lookup_empty.
    destruct (cm !! key), (defaultMetadata o !! key); reflexivity.
Qed.

(** The [error] field of the record of an [error()] call: the serialized
    error value when there is one, else a truthy [error] entry of the
    merged metadata. *)
Lemma error_call_error_field o cm w message (errorData : option Metadata) metadata :
  e_error (entry_of o cm w Err message (Some (error_metadata errorData metadata)))
  = match errorData with
    | Some d => Some (JObj d)
    | None =>
        match merged o cm metadata !! "error" with
        | Some v => if truthy v then Some v else None
        | None => None
        end
    end.
Proof.
  rewrite entry_of_error, !merged_lookup. unfold error_metadata.
  destruct errorData as [d|]; simpl.
  - unfold spread. by rewrite lookup_union, lookup_singleton_eq, union_Some_l.
  - destruct metadata as [md|]; simpl; [|done].
    unfold spread. by rewrite (right_id_L ∅ (∪)).
Qed.

Lemma error_ok s this a o cm message err errorData metadata :
  is_logger s this a o cm →
  serialized_of o err = Yields errorData →
  error this message err metadata s
  = call_output (output o)
      (entry_of o cm (world s) Err message (Some (error_metadata errorData metadata))) s.
Proof.
  intros H Hser.
  pose proof (invoke_ok s this a o cm (call_error message err metadata) H) as E.
  simpl in E. by rewrite Hser, error_level_passes in E.
Qed.

(** An [error()] call throws what the conversion of its value raises, and
    nothing else happens. *)
Lemma error_throws s this a o cm message err exn metadata :
  is_logger s this a o cm →
  serialized_of o err = Raises exn →
  error this message err metadata s = Thrown exn s.
Proof.
  intros H Hser.
  pose proof (invoke_ok s this a o cm (call_error message err metadata) H) as E.
  simpl in E. by rewrite Hser in E.
Qed.

(** Lookup in the object [serializeError] builds for an [Error]. *)
Lemma serialized_lookup (name message stack : JsVal) (own : Metadata) (st : bool) key :
  (filter (λ kv, kv.1 ≠ "name" ∧ kv.1 ≠ "message" ∧ kv.1 ≠ "stack") own
   ∪ (if st
      then <["stack" := stack]> (<["message" := message]> {["name" := name]})
      else <["message" := message]> {["name" := name]})) !! key
  = if decide (key = "name") then Some name
    else if decide (key = "message") then Some message
    else if decide (key = "stack") then (if st then Some stack else None)
    else own !! key.
Proof.
  rewrite lookup_union.
  repeat case_decide; subst.
  - rewrite map_lookup_filter_None_2 by (right; intros ? _; simpl; tauto).
    destruct st; by simplify_map_eq.
  - rewrite map_lookup_filter_None_2 by (right; intros ? _; simpl; tauto).
    destruct st; by simplify_map_eq.
  - rewrite map_lookup_filter_None_2 by (right; intros ? _; simpl; tauto).
    destruct st; by simplify_map_eq.
  - assert (((if st
              then <["stack" := stack]> (<["message" := message]> {["name" := name]})
              else <["message" := message]> {["name" := name]}) : Metadata) !! key = None)
      as -> by (destruct st; by simplify_map_eq).
    rewrite (right_id_L None (∪)).
    destruct (own !! key) as [v|] eqn:E.
    + by apply map_lookup_filter_Some_2.
    + apply map_lookup_filter_None_2. by left.
Qed.

(** *** Frame: what the methods leave alone *)

Local Abbreviation heap_intact := (writes_no_heap (Ext:=Ext)).

Lemma writes_no_heap_ret {A} (x : A) : heap_intact (mret x : M A).
Proof. intros s. reflexivity. Qed.

Lemma writes_no_heap_bind {A B} (m : M A) (k : A → M B) :
  heap_intact m → (∀ x, heap_intact (k x)) → heap_intact (m ≫= k).
Proof.
  intros Hm Hk s. unfold mbind, M_bind, bind.
  specialize (Hm s). destruct (m s) as [x s'|exn s']; simpl in Hm.
  - by rewrite Hk.
  - done.
Qed.

Lemma writes_no_heap_try_catch {A} (body : M A) (handler : JsVal → M A) :
  heap_intact body → (∀ exn, heap_intact (handler exn)) →
  heap_intact (try_catch body handler).
Proof.
  intros Hb Hh s. unfold try_catch.
  specialize (Hb s). destruct (body s) as [x s'|exn s']; simpl in Hb.
  - done.
  - by rewrite Hh.
Qed.

Lemma writes_no_heap_read_logger this : heap_intact (read_logger this).
Proof. intros s. unfold read_logger. by destruct (heap s !! this) as [[|]|]. Qed.

Lemma writes_no_heap_read_options a : heap_intact (read_options a).
Proof. intros s. unfold read_options. by destruct (heap s !! a) as [[|]|]. Qed.

Lemma writes_no_heap_Date : heap_intact Date_toISOString.
Proof. intros s. reflexivity. Qed.

Lemma writes_no_heap_current : heap_intact RequestContext_current.
Proof. intros s. unfold RequestContext_current. by destruct (current (world s)). Qed.

Lemma writes_no_heap_get context key : heap_intact (context_get context key).
Proof. intros s. unfold context_get. by destruct (get context key). Qed.

Lemma writes_no_heap_call {A} (r : Lookup A) : heap_intact (call r).
Proof. intros s. unfold call. by destruct r. Qed.

Lemma writes_no_heap_call_output (out : Output) entry :
  heap_intact (call_output out entry).
Proof. intros s. apply call_output_heap. Qed.

Create HintDb frame discriminated.
#[local] Hint Resolve
  writes_no_heap_ret writes_no_heap_read_logger writes_no_heap_read_options
  writes_no_heap_Date writes_no_heap_current writes_no_heap_get
  writes_no_heap_call writes_no_heap_call_output : frame.

(** Walks down a method body: binds, [try]/[catch], branches. *)
Ltac no_heap_write :=
  repeat first
    [ solve [auto with frame]
    | apply writes_no_heap_bind; [|intros ?]
    | apply writes_no_heap_try_catch; [|intros ?]
    | match goal with
      | |- heap_intact (match ?x with _ => _ end) => destruct x
      end ].

Lemma writes_no_heap_this_options this : heap_intact (this_options this).
Proof. unfold this_options. no_heap_write. Qed.

Lemma writes_no_heap_this_childMetadata this :
  heap_intact (this_childMetadata this).
Proof. unfold this_childMetadata. no_heap_write. Qed.

#[local] Hint Resolve writes_no_heap_this_options writes_no_heap_this_childMetadata : frame.

Lemma writes_no_heap_extractContextData : heap_intact extractContextData.
Proof. unfold extractContextData. no_heap_write. Qed.

Lemma writes_no_heap_serializeError this err : heap_intact (serializeError this err).
Proof. unfold serializeError. no_heap_write. Qed.

#[local] Hint Resolve writes_no_heap_extractContextData writes_no_heap_serializeError : frame.

Lemma writes_no_heap_buildLogEntry this level message metadata :
  heap_intact (buildLogEntry this level message metadata).
Proof. unfold buildLogEntry. no_heap_write. Qed.

#[local] Hint Resolve writes_no_heap_buildLogEntry : frame.

Lemma writes_no_heap_log this level message metadata :
  heap_intact (log this level message metadata).
Proof. unfold log, shouldLog. no_heap_write. Qed.

#[local] Hint Resolve writes_no_heap_log : frame.

(** No logging call writes or allocates a heap object. *)
Lemma writes_no_heap_invoke this c : heap_intact (invoke this c).
Proof.
  destruct c; simpl; unfold debug, info, warn, error; no_heap_write.
Qed.

Lemma is_logger_heap s s' this a o cm :
  heap s' = heap s → is_logger s this a o cm → is_logger s' this a o cm.
Proof. unfold is_logger. by intros ->. Qed.

Lemma invoke_sinkCalls s this a o cm c metadata :
  is_logger s this a o cm →
  log_metadata o c = Yields metadata →
  LOG_LEVELS (call_level c) >= LOG_LEVELS (minLevel o) →
  sinkCalls (state_of (invoke this c s))
  = (sinkCalls s
     ++ [entry_of o cm (world s) (call_level c) (call_message c) metadata])%list.
Proof.
  intros H Hmd Hge. rewrite (invoke_ok _ _ _ _ _ _ H), Hmd.
  destruct (Z.geb_spec (LOG_LEVELS (call_level c)) (LOG_LEVELS (minLevel o))); [|lia].
  apply call_output_sinkCalls.
Qed.

(** ** Level filtering *)


(** ** Metadata merge *)

(** C2. For every record, the metadata field holds, under every key other
    than the reserved [error], the per-call value if the call gave one,
    else the accumulated child value, else the default value: default
    metadata overridden by child metadata overridden by per-call
    metadata. *)
Theorem C2_metadata_merge s this a o cm level message metadata :
  is_logger s this a o cm →
  ∃ entry,
    buildLogEntry this level message metadata s = Returned entry s
    ∧ ∀ key, key ≠ "error" →
        default ∅ (e_metadata entry) !! key
        = match default ∅ metadata !! key with
          | Some v => Some v
          | None => match cm !! key with
                    | Some v => Some v
                    | None => defaultMetadata o !! key
                    end
          end.
Proof.
  intros H. eexists. split; [by eapply buildLogEntry_ok|].
  intros key Hkey. rewrite entry_of_metadata, <- merged_lookup.
  destruct (decide _) as [E|E]; simpl.
  - rewrite <- (lookup_delete_ne (merged o cm metadata) "error" key) by done.
    by rewrite E.
  - by rewrite lookup_delete_ne.
Qed.

(** ** The reserved key [error] *)

(** C3, as the code has it. For every record built at any level: the key [error] of
    the merged metadata never stays in the record's metadata field; its
    value becomes the record's error field exactly when that value is
    truthy; and the metadata field is omitted, never an empty object, when
    no key other than [error] remains after the merge. *)
Theorem C3_error_split s this a o cm level message metadata :
  is_logger s this a o cm →
  ∃ entry,
    buildLogEntry this level message metadata s = Returned entry s
    ∧ (∀ m, e_metadata entry = Some m →
         m !! "error" = None ∧ m ≠ ∅
         ∧ ∀ key, key ≠ "error" → m !! key = merged o cm metadata !! key)
    ∧ (e_metadata entry = None ↔
         ∀ key, key ≠ "error" → merged o cm metadata !! key = None)
    ∧ (∀ v, e_error entry = Some v ↔
         merged o cm metadata !! "error" = Some v ∧ truthy v = true).
Proof.
  intros H. eexists. split; [by eapply buildLogEntry_ok|].
  rewrite entry_of_metadata, entry_of_error.
  split; [|split].
  - intros m Hm. destruct (decide _) as [E|E]; [done|].
    injection Hm as <-. split; [apply lookup_delete_eq|]. split; [done|].
    intros key Hkey. by apply lookup_delete_ne.
  - destruct (decide _) as [E|E]; split; try done.
    + intros _ key Hkey.
      rewrite <- (lookup_delete_ne (merged o cm metadata) "error" key) by done.
      by rewrite E.
    + intros Hnone. exfalso. apply E. apply map_eq. intros key.
      rewrite lookup_empty. destruct (decide (key = "error")) as [->|Hkey].
      * apply lookup_delete_eq.
      * rewrite lookup_delete_ne by done. by apply Hnone.
  - intros v. destruct (merged o cm metadata !! "error") as [v'|].
    + destruct (truthy v') eqn:T; split.
      * by intros [= ->].
      * by intros [[= ->] _].
      * done.
      * intros [[= ->] T']. congruence.
    + split; [done|]. by intros [? _].
Qed.

(** ** Error serialization *)


(** C5, as the code has it. For every call [error(message, errorValue,
    metadata?)]: if [errorValue] is falsy (undefined, null, false, 0, NaN
    or the empty string) and no default, child or per-call metadata
    carries a truthy [error] entry, the record has no error field; if
    [errorValue] is truthy, not an [Error], and [String(errorValue)]
    yields a text, the record's error field is exactly [{message: text}],
    with no [name] and no [stack]. *)
Theorem C5_non_error_values s this a o cm message err metadata :
  is_logger s this a o cm →
  (truthy err = false →
   ∃ entry,
     sinkCalls (state_of (error this message err metadata s))
     = (sinkCalls s ++ [entry])%list
     ∧ ((∀ v, merged o cm metadata !! "error" = Some v → truthy v = false) →
        e_error entry = None))
  ∧ (∀ text,
       truthy err = true → instanceofError err = false →
       String_ err = Yields text →
       ∃ entry,
         sinkCalls (state_of (error this message err metadata s))
         = (sinkCalls s ++ [entry])%list
         ∧ e_error entry = Some (JObj {["message" := JStr text]})
         ∧ ({["message" := JStr text]} : Metadata) !! "name" = None
         ∧ ({["message" := JStr text]} : Metadata) !! "stack" = None).
Proof.
  intros H. split.
  - intros Hfalsy. eexists.
    erewrite (error_ok _ _ _ _ _ _ _ None _ H);
      last by (unfold serialized_of; rewrite Hfalsy).
    rewrite call_output_sinkCalls. split; [reflexivity|].
    rewrite error_call_error_field. intros Hmd.
    destruct (merged o cm metadata !! "error") as [v|]; [|done].
    by rewrite (Hmd v).
  - intros text Htruthy Hne Htext. eexists.
    erewrite (error_ok _ _ _ _ _ _ _ (Some {["message" := JStr text]}) _ H);
      last by (unfold serialized_of; rewrite Htruthy; destruct err;
               try discriminate; rewrite Htext).
    rewrite call_output_sinkCalls. split; [reflexivity|].
    rewrite error_call_error_field. by repeat split.
Qed.

(** C9, as the code has it. In [error(message, errorValue, metadata)],
    for a call that gets as far as [log]: when [errorValue] is truthy it
    is serialized, and the serialized value is the record's error field
    whatever the caller put under [error] in the per-call metadata; when
    [errorValue] is falsy nothing is serialized, and the record's error
    field is decided by the one [error] entry the merge keeps (the
    per-call entry if the key is there, else the child entry, else the
    default entry): that entry if it is truthy, no error field if it is
    falsy or there is none. *)
Theorem C9_error_precedence s this a o cm message err metadata :
  is_logger s this a o cm →
  reaches_log (call_error message err metadata) →
  ∃ entry,
    sinkCalls (state_of (error this message err metadata s))
    = (sinkCalls s ++ [entry])%list
    ∧ (truthy err = true →
       ∃ serialized,
         serializeError this err s = Returned (Some serialized) s
         ∧ e_error entry = Some (JObj serialized))
    ∧ (truthy err = false →
       serializeError this err s = Returned None s
       ∧ e_error entry
         = match
             match default ∅ metadata !! "error" with
             | Some v => Some v
             | None => match cm !! "error" with
                       | Some v => Some v
                       | None => defaultMetadata o !! "error"
                       end
             end
           with
           | Some v => if truthy v then Some v else None
           | None => None
           end).
Proof.
  intros H Hreach.
  destruct (reaches_log_metadata o _ Hreach) as [md Hmd]. simpl in Hmd.
  destruct (serialized_of o err) as [errorData|exn] eqn:Hser; [|discriminate].
  eexists.
  rewrite (error_ok _ _ _ _ _ _ _ _ _ H Hser), call_output_sinkCalls.
  split; [reflexivity|].
  rewrite error_call_error_field, (serializeError_ok _ _ _ _ _ _ H), Hser.
  unfold serialized_of in Hser. split.
  - intros Htruthy. rewrite Htruthy in Hser.
    destruct errorData as [d|]; [by eauto|].
    destruct err; try discriminate;
      match type of Hser with context [String_ ?v] =>
        destruct (String_ v); discriminate end.
  - intros Hfalsy. rewrite Hfalsy in Hser. injection Hser as <-.
    split; [reflexivity|]. by rewrite merged_lookup.
Qed.

(** ** Context enrichment *)


(** ** Child loggers *)

(** C7, as the code has it. For every logger L and metadata m, [L.child(m)] returns
    a new logger whose options object is a fresh object, distinct from
    L's, holding the same six option values as L's, and whose accumulated
    child metadata is L's child metadata with the keys of m overriding
    same-named keys.  [child(m)] writes no existing object: the receiver
    and its options are as before.  No logging call writes the heap, so a
    record the parent builds is the same whether or not the child has
    logged, and the other way round. *)
Theorem C7_child_logger s this a o cm metadata :
  is_logger s this a o cm →
  ∃ this' a' s',
    child this metadata s = Returned this' s'
    ∧ is_logger s' this' a' o (spread cm metadata)
    ∧ (∀ key, spread cm metadata !! key
              = match metadata !! key with Some v => Some v | None => cm !! key end)
    ∧ heap s !! this' = None ∧ heap s !! a' = None ∧ a' ≠ a
    ∧ (∀ l obj, heap s !! l = Some obj → heap s' !! l = Some obj)
    ∧ is_logger s' this a o cm
    ∧ world s' = world s ∧ sinkCalls s' = sinkCalls s
    ∧ (∀ l c st, heap (state_of (invoke l c st)) = heap st)
    ∧ (∀ c' st level message md,
         heap st = heap (state_of (invoke this' c' s')) →
         returned (buildLogEntry this level message md st)
         = returned (buildLogEntry this level message md
                       {| heap := heap s'; world := world st; sinkCalls := sinkCalls st |}))
    ∧ (∀ c' st level message md,
         heap st = heap (state_of (invoke this c' s')) →
         returned (buildLogEntry this' level message md st)
         = returned (buildLogEntry this' level message md
                       {| heap := heap s'; world := world st; sinkCalls := sinkCalls st |})).
Proof.
  intros H. destruct o as [ml pp ist dm out enr].
  set (o := mkRequired ml pp ist dm out enr) in *.
  pose proof H as [Hl Ho].
  assert (Hspread : spread (spread ∅ cm) metadata = spread cm metadata).
  { unfold spread. by rewrite (right_id_L ∅ (∪)). }
  set (h' := (heap s ++ [OptionsObj o;
                         LoggerObj (length (heap s)) (spread cm metadata)])%list).
  exists (S (length (heap s))), (length (heap s)),
    {| heap := h'; world := world s; sinkCalls := sinkCalls s |}.
  split.
  { unfold child.
    erewrite bind_Returned; last by eapply this_childMetadata_ok.
    erewrite bind_Returned; last by eapply this_options_ok.
    unfold new_StruktosLogger. simpl. by rewrite Hspread. }
  simpl.
  assert (Hold : ∀ l obj, heap s !! l = Some obj → h' !! l = Some obj).
  { intros l obj Hobj. by apply lookup_app_l_Some. }
  assert (Hchild : is_logger {| heap := h'; world := world s; sinkCalls := sinkCalls s |}
            (S (length (heap s))) (length (heap s)) o (spread cm metadata)).
  { split; simpl; unfold h'.
    - rewrite lookup_app_r by lia.
      replace (S (length (heap s)) - length (heap s))%nat with 1%nat by lia.
      reflexivity.
    - rewrite lookup_app_r by lia. by rewrite Nat.sub_diag. }
  assert (Hparent : is_logger {| heap := h'; world := world s; sinkCalls := sinkCalls s |}
            this a o cm).
  { split; simpl; by apply Hold. }
  split; [exact Hchild|].
  split.
  { intros key. unfold spread. rewrite lookup_union.
    destruct (metadata !! key), (cm !! key); reflexivity. }
  split; [apply lookup_ge_None_2; lia|].
  split; [apply lookup_ge_None_2; lia|].
  split.
  { intros Ha. apply lookup_lt_Some in Ho. lia. }
  split; [exact Hold|].
  split; [exact Hparent|].
  split; [reflexivity|]. split; [reflexivity|].
  split; [intros l c st; apply writes_no_heap_invoke|].
  split.
  - intros c' st level message md Hst.
    rewrite writes_no_heap_invoke in Hst. simpl in Hst.
    rewrite (buildLogEntry_ok st this a o cm);
      last by apply (is_logger_heap {| heap := h'; world := world s; sinkCalls := sinkCalls s |} st _ _ _ _ Hst Hparent).
    rewrite (buildLogEntry_ok _ this a o cm);
      last by apply (is_logger_heap {| heap := h'; world := world s; sinkCalls := sinkCalls s |} _ _ _ _ _ eq_refl Hparent).
    reflexivity.
  - intros c' st level message md Hst.
    rewrite writes_no_heap_invoke in Hst. simpl in Hst.
    rewrite (buildLogEntry_ok st (S (length (heap s))) (length (heap s)) o
               (spread cm metadata));
      last by apply (is_logger_heap {| heap := h'; world := world s; sinkCalls := sinkCalls s |} st _ _ _ _ Hst Hchild).
    rewrite (buildLogEntry_ok _ (S (length (heap s))) (length (heap s)) o
               (spread cm metadata));
      last by apply (is_logger_heap {| heap := h'; world := world s; sinkCalls := sinkCalls s |} _ _ _ _ _ eq_refl Hchild).
    reflexivity.
Qed.

(** ** Timestamps *)

(** C8. The timestamp of a record is the clock reading taken when the
    record is built inside the logging call, whatever the output function
    does to the world afterwards; so for two calls on the same logger, one
    after the other, both getting as far as [log] and neither filtered,
    under a clock that does not go back between the start of the first
    and the start of the second, the second record's timestamp is not
    earlier than the first's. *)
Theorem C8_timestamps s this a o cm c1 c2 (w2 : World) :
  is_logger s this a o cm →
  reaches_log c1 → reaches_log c2 →
  LOG_LEVELS (call_level c1) >= LOG_LEVELS (minLevel o) →
  LOG_LEVELS (call_level c2) >= LOG_LEVELS (minLevel o) →
  now (world s) <= now w2 →
  ∃ e1 e2,
    sinkCalls (state_of (invoke this c1 s)) = (sinkCalls s ++ [e1])%list
    ∧ sinkCalls
        (state_of
           (invoke this c2
              {| heap := heap (state_of (invoke this c1 s));
                 world := w2;
                 sinkCalls := sinkCalls (state_of (invoke this c1 s)) |}))
      = (sinkCalls s ++ [e1; e2])%list
    ∧ e_timestamp e1 = toISOString (now (world s))
    ∧ e_timestamp e2 = toISOString (now w2)
    ∧ instant (e_timestamp e1) <= instant (e_timestamp e2).
Proof.
  intros H Hreach1 Hreach2 Hge1 Hge2 Hclock.
  destruct (reaches_log_metadata o _ Hreach1) as [md1 Hmd1].
  destruct (reaches_log_metadata o _ Hreach2) as [md2 Hmd2].
  eexists. eexists.
  split; [exact (invoke_sinkCalls _ _ _ _ _ _ _ H Hmd1 Hge1)|].
  split.
  { rewrite (invoke_sinkCalls _ this a o cm _ md2);
      [|eapply is_logger_heap; [|exact H]|done|done].
    - simpl. rewrite (invoke_sinkCalls _ _ _ _ _ _ _ H Hmd1 Hge1).
      rewrite <- app_assoc. reflexivity.
    - simpl. apply writes_no_heap_invoke. }
  simpl.
  destruct (entry_of_base o cm (world s) (call_level c1) (call_message c1) md1)
    as (_ & _ & ->).
  destruct (entry_of_base o cm w2 (call_level c2) (call_message c2) md2)
    as (_ & _ & ->).
  simpl. done.
Qed.

(** ** A throwing sink *)


End LoggerFacts.

(** * The statements on sample loggers *)

Section ClaimSamples.

#[local] Existing Instance sample_engine.


(** The scenario of the specification: with [minLevel = warn], [debug]
    and [info] reach the sink zero times, [warn] and [error] once each. *)
Example level_filtering_example :
  sinkCalls (state_of (debug 1 "d" None warn_state)) = []
  ∧ sinkCalls (state_of (info 1 "i" None warn_state)) = []
  ∧ length (sinkCalls (state_of (warn 1 "w" None warn_state))) = 1%nat
  ∧ length (sinkCalls (state_of (error 1 "e" JUndefined None warn_state))) = 1%nat.
Proof. repeat split; vm_compute; reflexivity. Qed.

(** C2 on the child of the sample logger. *)
Lemma C2_metadata_merge_witness :
  is_logger merge_state 3 2 merge_options {["b" := JNum 2; "c" := JNum 2]}
  ∧ ∃ entry,
      buildLogEntry 3 Info "hello" (Some {["c" := JNum 3; "d" := JNum 3]}) merge_state
      = Returned entry merge_state
      ∧ default ∅ (e_metadata entry) !! "b" = Some (JNum 2).
Proof.
  assert (H : is_logger merge_state 3 2 merge_options {["b" := JNum 2; "c" := JNum 2]})
    by (split; reflexivity).
  split; [exact H|].
  destruct (C2_metadata_merge merge_state 3 2 merge_options _ Info "hello"
              (Some {["c" := JNum 3; "d" := JNum 3]}) H) as (entry & Hrun & Hkeys).
  exists entry. split; [exact Hrun|].
  rewrite (Hkeys "b") by done. reflexivity.
Defined.

(** The scenario of the specification: defaults [{a:1,b:1}], a child
    created with [{b:2,c:2}], a call with [{c:3,d:3}]. *)
Example merge_precedence_example :
  e_metadata <$> sinkCalls
    (state_of (info 3 "hello" (Some {["c" := JNum 3; "d" := JNum 3]}) merge_state))
  = [Some {["a" := JNum 1; "b" := JNum 2; "c" := JNum 3; "d" := JNum 3]}].
Proof. vm_compute. reflexivity. Qed.

(** A falsy value under [error] is dropped: [info("m", {error: 0})] on the
    plain logger gives a record with neither [metadata] nor [error],
    although the merged metadata holds [0] under [error]. *)
Lemma C3_falsy_error_is_dropped :
  let metadata : option Metadata := Some {["error" := JNum 0]} in
  let entry := mkEntry Info "m" (toISOString 1000) None None None None None in
  is_logger plain_state 1 0 plain_options ∅
  ∧ merged plain_options ∅ metadata !! "error" = Some (JNum 0)
  ∧ buildLogEntry 1 Info "m" metadata plain_state = Returned entry plain_state
  ∧ sinkCalls (state_of (info 1 "m" metadata plain_state)) = [entry]
  ∧ e_error entry ≠ Some (JNum 0).
Proof.
  simpl. split; [split; reflexivity|].
  split; [reflexivity|].
  split; [vm_compute; reflexivity|].
  split; [vm_compute; reflexivity|].
  discriminate.
Qed.

(** C3 on the plain logger: a truthy [error] entry moves to the
    error field. *)
Lemma C3_error_split_witness :
  is_logger plain_state 1 0 plain_options ∅
  ∧ ∃ entry,
      buildLogEntry 1 Info "m" (Some {["error" := JStr "x"; "k" := JNum 1]}) plain_state
      = Returned entry plain_state
      ∧ e_error entry = Some (JStr "x").
Proof.
  assert (H : is_logger plain_state 1 0 plain_options ∅) by (split; reflexivity).
  split; [exact H|].
  destruct (C3_error_split plain_state 1 0 plain_options ∅ Info "m"
              (Some {["error" := JStr "x"; "k" := JNum 1]}) H)
    as (entry & Hrun & _ & _ & Herr).
  exists entry. split; [exact Hrun|].
  apply Herr. split; reflexivity.
Defined.


(** The scenario of the specification: [error("msg", new Error("boom"))]
    with and without [includeStackTrace]. *)
Example error_field_isolation_example :
  (e_metadata <$> sinkCalls (state_of (error 1 "msg" boom None plain_state)) = [None])
  ∧ returned (serializeError 1 boom plain_state)
    = Some (Some {["name" := JStr "Error"; "message" := JStr "boom";
                   "stack" := JStr "Error: boom at main.ts:1:1";
                   "code" := JStr "E_BOOM"]})
  ∧ serialized_of (mkRequired Info false false ∅ quiet_sink true) boom
    = Yields (Some {["name" := JStr "Error"; "message" := JStr "boom";
                     "code" := JStr "E_BOOM"]}).
Proof. repeat split; vm_compute; reflexivity. Qed.

(** Two calls against C5 as stated.  [error("msg", 0)]: the value is
    neither nullish nor an [Error], yet the record has no error field.
    [error("msg", undefined)] on a logger whose default metadata holds
    [error]: the value is nullish, yet the record has an error field. *)
Lemma C5_falsy_and_inherited_error :
  (nullish (JNum 0) = false ∧ instanceofError (JNum 0) = false
   ∧ e_error <$> sinkCalls (state_of (error 1 "msg" (JNum 0) None plain_state))
     = [None])
  ∧ (nullish JUndefined = true
     ∧ e_error <$> sinkCalls (state_of (error 1 "msg" JUndefined None tagged_state))
       = [Some (JStr "earlier failure")]).
Proof. repeat split; vm_compute; reflexivity. Qed.

(** C5 on the plain logger: [error("msg", "just a string")]. *)
Lemma C5_non_error_values_witness :
  is_logger plain_state 1 0 plain_options ∅
  ∧ ∃ entry,
      sinkCalls (state_of (error 1 "msg" (JStr "just a string") None plain_state))
      = [entry]
      ∧ e_error entry = Some (JObj {["message" := JStr "just a string"]}).
Proof.
  assert (H : is_logger plain_state 1 0 plain_options ∅) by (split; reflexivity).
  split; [exact H|].
  destruct (C5_non_error_values plain_state 1 0 plain_options ∅ "msg"
              (JStr "just a string") None H) as [_ Htruthy].
  destruct (Htruthy "just a string" eq_refl eq_refl eq_refl)
    as (entry & Hcalls & Herr & _).
  exists entry. split; [exact Hcalls|exact Herr].
Defined.

(** C9 on the plain logger: the serialized error replaces the caller's
    own [error] entry. *)
Lemma C9_error_precedence_witness :
  is_logger plain_state 1 0 plain_options ∅
  ∧ ∃ entry serialized,
      sinkCalls
        (state_of (error 1 "msg" (JStr "real") (Some {["error" := JStr "mine"]})
                     plain_state))
      = [entry]
      ∧ e_error entry = Some (JObj serialized).
Proof.
  assert (H : is_logger plain_state 1 0 plain_options ∅) by (split; reflexivity).
  split; [exact H|].
  destruct (C9_error_precedence plain_state 1 0 plain_options ∅ "msg"
              (JStr "real") (Some {["error" := JStr "mine"]}) H
              (or_intror (or_intror (ex_intro _ "real" eq_refl))))
    as (entry & Hcalls & Htruthy & _).
  destruct (Htruthy eq_refl) as (serialized & _ & Herr).
  exists entry, serialized. split; [exact Hcalls|exact Herr].
Defined.

(** Against C9 as worded: on a logger whose default metadata holds the
    truthy [error] entry ["earlier failure"], [error("msg", undefined,
    {error: 0})] serializes nothing and yet the record has no error field:
    the falsy per-call entry wins the merge and is then dropped. *)
Lemma C9_falsy_entry_hides_truthy_one :
  defaultMetadata tagged_options !! "error" = Some (JStr "earlier failure")
  ∧ truthy (JStr "earlier failure") = true
  ∧ serializeError 1 JUndefined tagged_state = Returned None tagged_state
  ∧ e_error <$> sinkCalls
      (state_of (error 1 "msg" JUndefined (Some {["error" := JNum 0]}) tagged_state))
    = [None].
Proof. repeat split; vm_compute; reflexivity. Qed.

(** The other half of C9: [error("msg", undefined)] on a logger whose
    default metadata holds a truthy [error]. *)
Example inherited_error_example :
  e_error <$> sinkCalls (state_of (error 1 "msg" JUndefined None tagged_state))
  = [Some (JStr "earlier failure")].
Proof. vm_compute. reflexivity. Qed.


(** Outside any context nothing is added and the call returns. *)
Example context_absence_example :
  info 1 "hello" None plain_state
  = Returned tt
      {| heap := heap plain_state;
         world := world_without_context;
         sinkCalls := [mkEntry Info "hello" (toISOString 1000) None None None None None] |}.
Proof. vm_compute. reflexivity. Qed.

(** The child does not hold the parent's options object: in the plain
    state the parent (address 1) points at the options at address 0, and
    the logger [child] returns (address 3) points at a new options object
    at address 2. *)
Lemma C7_child_options_not_shared :
  let s' := state_of (child 1 {["module" := JStr "auth"]} plain_state) in
  child 1 {["module" := JStr "auth"]} plain_state = Returned 3%nat s'
  ∧ heap s' !! 1%nat = Some (LoggerObj 0 ∅)
  ∧ heap s' !! 3%nat = Some (LoggerObj 2 {["module" := JStr "auth"]})
  ∧ heap plain_state !! 2%nat = None
  ∧ (2 ≠ 0)%nat.
Proof. simpl. repeat split; try (vm_compute; reflexivity). discriminate. Qed.

(** C7 on the plain logger. *)
Lemma C7_child_logger_witness :
  is_logger plain_state 1 0 plain_options ∅
  ∧ ∃ this' a' s',
      child 1 {["module" := JStr "auth"]} plain_state = Returned this' s'
      ∧ is_logger s' this' a' plain_options (spread ∅ {["module" := JStr "auth"]})
      ∧ a' ≠ 0%nat
      ∧ is_logger s' 1 0 plain_options ∅.
Proof.
  assert (H : is_logger plain_state 1 0 plain_options ∅) by (split; reflexivity).
  split; [exact H|].
  destruct (C7_child_logger plain_state 1 0 plain_options ∅
              {["module" := JStr "auth"]} H)
    as (this' & a' & s' & Hrun & Hchild & _ & _ & _ & Hne & _ & Hparent & _).
  exists this', a', s'. done.
Defined.

(** C8 on the plain logger: a call at time 1000, then one at time 1005. *)
Lemma C8_timestamps_witness :
  is_logger plain_state 1 0 plain_options ∅
  ∧ ∃ e1 e2,
      sinkCalls
        (state_of
           (warn 1 "second" None
              {| heap := heap (state_of (info 1 "first" None plain_state));
                 world := mkWorld 1005 (Yields None) [] tt;
                 sinkCalls := sinkCalls (state_of (info 1 "first" None plain_state)) |}))
      = [e1; e2]
      ∧ instant (e_timestamp e1) <= instant (e_timestamp e2).
Proof.
  assert (H : is_logger plain_state 1 0 plain_options ∅) by (split; reflexivity).
  split; [exact H|].
  destruct (C8_timestamps plain_state 1 0 plain_options ∅
              (call_info "first" None) (call_warn "second" None)
              (mkWorld 1005 (Yields None) [] tt) H I I)
    as (e1 & e2 & _ & Hcalls & _ & _ & Hle);
    [simpl; lia | simpl; lia | simpl; lia |].
  exists e1, e2. split; [exact Hcalls|exact Hle].
Defined.


End ClaimSamples.

(** * Further properties of the class *)

Section MoreLoggerFacts.

Context {Ext : Type} {engine : Engine}.
Implicit Types (s st : State (Ext:=Ext)) (o : RequiredOptions (Ext:=Ext)).
Implicit Types (this a : loc) (cm : Metadata) (c : Call).

(** ** Construction *)

Lemma spread_empty (m : Metadata) : spread ∅ m = m.
Proof. unfold spread. apply (right_id_L ∅ (∪)). Qed.

Lemma spread_assoc (m1 m2 m3 : Metadata) :
  spread (spread m1 m2) m3 = spread m1 (spread m2 m3).
Proof. unfold spread. apply (assoc_L (∪)). Qed.

(** Re-resolving resolved options changes nothing. *)
Lemma resolve_as_options o (this : loc) :
  {| minLevel := default Info (opt_minLevel (as_options o));
     prettyPrint := default false (opt_prettyPrint (as_options o));
     includeStackTrace := default true (opt_includeStackTrace (as_options o));
     defaultMetadata := default ∅ (opt_defaultMetadata (as_options o));
     output := default (DefaultOutputOf this) (opt_output (as_options o));
     enrichWithContext := default true (opt_enrichWithContext (as_options o)) |}
  = o.
Proof. by destruct o. Qed.

Lemma child_ok s this a o cm metadata :
  is_logger s this a o cm →
  child this metadata s
  = Returned (S (length (heap s)))
      {| heap := heap s ++ [OptionsObj o;
                            LoggerObj (length (heap s)) (spread cm metadata)];
         world := world s;
         sinkCalls := sinkCalls s |}.
Proof.
  intros H. unfold child.
  erewrite bind_Returned; last by eapply this_childMetadata_ok.
  erewrite bind_Returned; last by eapply this_options_ok.
  unfold new_StruktosLogger. rewrite resolve_as_options, spread_empty. reflexivity.
Qed.

Lemma is_logger_grow s this a o cm (more : list HeapObj) w k :
  is_logger s this a o cm →
  is_logger {| heap := heap s ++ more; world := w; sinkCalls := k |} this a o cm.
Proof. intros [Hl Ho]. split; simpl; by apply lookup_app_l_Some. Qed.

Lemma lookup_new_options (h : list (HeapObj (Ext:=Ext))) x y :
  (h ++ [x; y])%list !! length h = Some x.
Proof. rewrite lookup_app_r by lia. by rewrite Nat.sub_diag. Qed.

Lemma lookup_new_logger (h : list (HeapObj (Ext:=Ext))) x y :
  (h ++ [x; y])%list !! S (length h) = Some y.
Proof.
  rewrite lookup_app_r by lia.
  replace (S (length h) - length h)%nat with 1%nat by lia. reflexivity.
Qed.

Lemma lookup_new_cases (h : list (HeapObj (Ext:=Ext))) x y l obj :
  (h ++ [x; y])%list !! l = Some obj →
  h !! l = Some obj ∨ (l = length h ∧ obj = x) ∨ (l = S (length h) ∧ obj = y).
Proof.
  intros Hobj. destruct (decide (l < length h)%nat) as [Hlt|Hge].
  - left. by rewrite lookup_app_l in Hobj.
  - right. rewrite lookup_app_r in Hobj by lia.
    destruct (l - length h)%nat as [|[|n]] eqn:E; simpl in Hobj.
    + left. split; [lia|congruence].
    + right. split; [lia|congruence].
    + by rewrite lookup_nil in Hobj.
Qed.

Lemma is_logger_fresh (h : list HeapObj) o cm w k :
  is_logger {| heap := h ++ [OptionsObj o; LoggerObj (length h) cm];
               world := w; sinkCalls := k |}
    (S (length h)) (length h) o cm.
Proof. split; simpl; [apply lookup_new_logger|apply lookup_new_options]. Qed.

(** ** A heap the class itself built *)

Lemma heap_wf_empty (w : World (Ext:=Ext)) k :
  heap_wf {| heap := []; world := w; sinkCalls := k |}.
Proof. split; intros *; simpl; by rewrite lookup_nil. Qed.

Lemma heap_wf_heap s s' : heap s' = heap s → heap_wf s → heap_wf s'.
Proof. unfold heap_wf. by intros ->. Qed.

Lemma heap_wf_new s options cm :
  heap_wf s → output_ok s (opt_output options) →
  heap_wf (state_of (new_StruktosLogger options cm s)).
Proof.
  intros [Hlog Hopt] Hout. unfold new_StruktosLogger. simpl.
  set (resolved := mkRequired _ _ _ _ _ _).
  split; simpl.
  - intros l a cm' Hl.
    destruct (lookup_new_cases _ _ _ _ _ Hl) as [Hin|[[_ Heq]|[_ Heq]]].
    + destruct (Hlog _ _ _ Hin) as [o' Ho']. exists o'.
      by apply lookup_app_l_Some.
    + discriminate.
    + injection Heq as -> ->. exists resolved. apply lookup_new_options.
  - intros a o' self Ha Hself.
    destruct (lookup_new_cases _ _ _ _ _ Ha) as [Hin|[[_ Heq]|[_ Heq]]].
    + destruct (Hopt _ _ _ Hin Hself) as (a' & cm' & Hin').
      exists a', cm'. by apply lookup_app_l_Some.
    + injection Heq as ->. subst resolved. simpl in Hself.
      destruct (opt_output options) as [[f|self']|]; simpl in *.
      * discriminate.
      * injection Hself as ->. destruct Hout as (a' & cm' & Hin').
        exists a', cm'. by apply lookup_app_l_Some.
      * injection Hself as <-. eexists _, _. apply lookup_new_logger.
    + discriminate.
Qed.

Lemma child_not_logger s this metadata :
  (∀ a cm, heap s !! this ≠ Some (LoggerObj a cm)) →
  state_of (child this metadata s) = s.
Proof.
  intros Hno. unfold child.
  erewrite bind_Thrown; first reflexivity.
  unfold this_childMetadata. erewrite bind_Thrown; first reflexivity.
  unfold read_logger. destruct (heap s !! this) as [[o'|a' cm']|] eqn:E; try reflexivity.
  by destruct (Hno a' cm').
Qed.

(** X2. A heap in which every instance points at an options object, and
    every stored [defaultOutput] belongs to an existing instance, stays
    so under the constructor (given an [output] option that is absent, a
    function of the caller, or an existing instance's [defaultOutput]),
    under [child] and under every logging call; the empty heap is such a
    heap. *)
Theorem X2_heap_wf_invariant s :
  heap_wf s →
  (∀ options cm, output_ok s (opt_output options) →
     heap_wf (state_of (new_StruktosLogger options cm s)))
  ∧ (∀ options, output_ok s (opt_output (default no_options options)) →
       heap_wf (state_of (createLogger options s)))
  ∧ (∀ this metadata, heap_wf (state_of (child this metadata s)))
  ∧ (∀ this c, heap_wf (state_of (invoke this c s)))
  ∧ heap_wf {| heap := []; world := world s; sinkCalls := sinkCalls s |}.
Proof.
  intros Hwf. split; [|split; [|split; [|split]]].
  - intros options cm Hout. by apply heap_wf_new.
  - intros options Hout. by apply heap_wf_new.
  - intros this metadata.
    destruct (heap s !! this) as [[o'|a cm]|] eqn:E.
    + rewrite child_not_logger; [done|]. intros ??. by rewrite E.
    + destruct Hwf as [Hlog Hopt]. destruct (Hlog _ _ _ E) as [o Ho].
      assert (H : is_logger s this a o cm) by done.
      unfold child.
      erewrite bind_Returned; last by eapply this_childMetadata_ok.
      erewrite bind_Returned; last by eapply this_options_ok.
      apply heap_wf_new; [done|]. simpl.
      destruct (output o) as [f|self] eqn:Eout; [done|].
      by apply (Hopt a o self).
    + rewrite child_not_logger; [done|]. intros ??. by rewrite E.
  - intros this c. eapply heap_wf_heap; [|exact Hwf]. apply writes_no_heap_invoke.
  - apply heap_wf_empty.
Qed.

(** ** The default output *)



(** ** Exceptions *)



(** X16. An [error] call whose value is truthy, not an [Error], and not
    convertible by [String()] (an object with an own [toString] property
    that is no function) throws the conversion's exception out of
    [error()]: [log] is not entered, no record is built, the sink is not
    called and nothing changes. *)
Theorem X16_unconvertible_error_value s this a o cm message err exn metadata :
  is_logger s this a o cm →
  truthy err = true →
  instanceofError err = false →
  String_ err = Raises exn →
  error this message err metadata s = Thrown exn s
  ∧ serializeError this err s = Thrown exn s.
Proof.
  intros H Htruthy Hne Hraise.
  assert (Hser : serialized_of o err = Raises exn).
  { unfold serialized_of. rewrite Htruthy.
    destruct err; try discriminate; by rewrite Hraise. }
  split; [by eapply error_throws|].
  by rewrite (serializeError_ok _ _ _ _ _ _ H), Hser.
Qed.

(** ** The threshold *)

(** X5. The level filter is upward closed: a level that passes lets every
    level of equal or higher rank pass.  [error] passes under every
    threshold, every level passes under the threshold [debug], and under
    the threshold [error] nothing but [error] passes. *)
Theorem X5_filter_upward_closed s this a o cm :
  is_logger s this a o cm →
  (∀ l1 l2, LOG_LEVELS l1 <= LOG_LEVELS l2 →
     shouldLog this l1 s = Returned true s → shouldLog this l2 s = Returned true s)
  ∧ shouldLog this Err s = Returned true s
  ∧ (minLevel o = Debug → ∀ l, shouldLog this l s = Returned true s)
  ∧ (minLevel o = Err → ∀ l, l ≠ Err → shouldLog this l s = Returned false s).
Proof.
  intros H. split; [|split; [|split]].
  - intros l1 l2 Hle. rewrite !(shouldLog_ok _ _ _ _ _ _ H).
    intros [= H1]. f_equal. apply Z.geb_le in H1. apply Z.geb_le. lia.
  - by rewrite (shouldLog_ok _ _ _ _ _ _ H), error_level_passes.
  - intros Hmin l. rewrite (shouldLog_ok _ _ _ _ _ _ H), Hmin. by destruct l.
  - intros Hmin l Hl. rewrite (shouldLog_ok _ _ _ _ _ _ H), Hmin. by destruct l.
Qed.

(** ** Chains of children *)

(** X6. Two [child] calls in a row accumulate like one: the logger
    [L.child(m1).child(m2)] and the logger [L.child({...m1, ...m2})] hold
    the same option values and the same child metadata (a key is taken
    from [m2], else from [m1], else from L's child metadata), and build
    the same record for every call in every world. *)
Theorem X6_child_composition s this a o cm (m1 m2 : Metadata) :
  is_logger s this a o cm →
  ∃ g ag sg d ad sd,
    (child this m1 ≫= λ first, child first m2) s = Returned g sg
    ∧ child this (spread m1 m2) s = Returned d sd
    ∧ is_logger sg g ag o (spread (spread cm m1) m2)
    ∧ is_logger sd d ad o (spread (spread cm m1) m2)
    ∧ (∀ key, spread (spread cm m1) m2 !! key
              = match m2 !! key with
                | Some v => Some v
                | None => match m1 !! key with
                          | Some v => Some v
                          | None => cm !! key
                          end
                end)
    ∧ ∀ level message md (w : World) k k',
        returned (buildLogEntry g level message md
                    {| heap := heap sg; world := w; sinkCalls := k |})
        = returned (buildLogEntry d level message md
                      {| heap := heap sd; world := w; sinkCalls := k' |}).
Proof.
  intros H.
  pose proof (is_logger_fresh (heap s) o (spread cm m1) (world s) (sinkCalls s)) as H1.
  pose proof (child_ok _ _ _ _ _ m2 H1) as Hg. simpl in Hg.
  pose proof (child_ok _ _ _ _ _ (spread m1 m2) H) as Hd.
  rewrite <- spread_assoc in Hd.
  eexists _, _, _, _, _, _.
  split.
  { erewrite bind_Returned; last by apply (child_ok _ _ _ _ _ _ H). exact Hg. }
  split; [exact Hd|].
  split; [apply is_logger_fresh|].
  split; [apply is_logger_fresh|].
  split.
  { intros key. unfold spread. rewrite !lookup_union.
    destruct (m2 !! key), (m1 !! key), (cm !! key); reflexivity. }
  intros level message md w k k'.
  erewrite !buildLogEntry_ok; [reflexivity| |].
  - apply is_logger_fresh.
  - apply is_logger_fresh.
Qed.

(** X7. A child created with empty metadata is a copy of its parent: same
    option values, same child metadata, and the same record for every
    call in every world. *)
Theorem X7_child_empty s this a o cm :
  is_logger s this a o cm →
  ∃ this' a' s',
    child this ∅ s = Returned this' s'
    ∧ is_logger s' this' a' o cm
    ∧ ∀ level message md (w : World) k,
        returned (buildLogEntry this' level message md
                    {| heap := heap s'; world := w; sinkCalls := k |})
        = returned (buildLogEntry this level message md
                      {| heap := heap s'; world := w; sinkCalls := k |}).
Proof.
  intros H. pose proof (child_ok _ _ _ _ _ ∅ H) as Hc.
  assert (E : spread cm ∅ = cm) by (unfold spread; apply (left_id_L ∅ (∪))).
  rewrite E in Hc.
  eexists _, _, _. split; [exact Hc|].
  split; [apply is_logger_fresh|].
  intros level message md w k. simpl.
  erewrite !buildLogEntry_ok; [reflexivity| |].
  - apply is_logger_grow with (s := s). exact H.
  - apply is_logger_fresh.
Qed.

(** ** What metadata cannot do *)

(** X8. Metadata never reaches the top level of a record: whatever the
    per-call metadata holds (a key [level], [message], [timestamp],
    [traceId], ...), the level, the message, the timestamp and the three
    context fields of the record are the same. *)
Theorem X8_metadata_stays_nested s this a o cm level message md1 md2 :
  is_logger s this a o cm →
  ∃ e1 e2,
    buildLogEntry this level message md1 s = Returned e1 s
    ∧ buildLogEntry this level message md2 s = Returned e2 s
    ∧ e_level e1 = level ∧ e_level e2 = level
    ∧ e_message e1 = message ∧ e_message e2 = message
    ∧ e_timestamp e1 = e_timestamp e2
    ∧ e_traceId e1 = e_traceId e2
    ∧ e_requestId e1 = e_requestId e2
    ∧ e_userId e1 = e_userId e2.
Proof.
  intros H. eexists _, _.
  split; [by eapply buildLogEntry_ok|]. split; [by eapply buildLogEntry_ok|].
  destruct (entry_of_base o cm (world s) level message md1) as (-> & -> & ->).
  destruct (entry_of_base o cm (world s) level message md2) as (-> & -> & ->).
  destruct (entry_of_context o cm (world s) level message md1) as (-> & -> & ->).
  destruct (entry_of_context o cm (world s) level message md2) as (-> & -> & ->).
  done.
Qed.

(** ** Context fields *)

(** X9. With [enrichWithContext] false no record carries [traceId],
    [requestId] or [userId], whatever the ambient context holds. *)
Theorem X9_enrichment_off s this a o cm level message metadata :
  is_logger s this a o cm →
  enrichWithContext o = false →
  ∃ entry,
    buildLogEntry this level message metadata s = Returned entry s
    ∧ e_traceId entry = None ∧ e_requestId entry = None ∧ e_userId entry = None.
Proof.
  intros H Hoff. eexists. split; [by eapply buildLogEntry_ok|].
  pose proof (entry_of_context o cm (world s) level message metadata) as Hids.
  simpl in Hids. by rewrite Hoff in Hids.
Qed.

(** X10. A context field of a record, when present, is the value the
    context returned for that key, and that value is truthy: no record
    carries an empty, null or undefined identifier. *)
Theorem X10_context_fields_truthy s this a o cm level message metadata :
  is_logger s this a o cm →
  ∃ entry,
    buildLogEntry this level message metadata s = Returned entry s
    ∧ ∀ key field,
        (key, field) ∈ [("traceId", e_traceId entry);
                        ("requestId", e_requestId entry);
                        ("userId", e_userId entry)] →
        ∀ v, field = Some v →
          truthy v = true
          ∧ ∃ context, current (world s) = Yields (Some context)
                       ∧ get context key = Yields v.
Proof.
  intros H. eexists. split; [by eapply buildLogEntry_ok|].
  destruct (entry_of_context o cm (world s) level message metadata) as (-> & -> & ->).
  intros key field Hin v Hv.
  assert (Hcd : ∀ key field,
            (key, field) ∈ [("traceId", cd_traceId (contextData_of (world s)));
                            ("requestId", cd_requestId (contextData_of (world s)));
                            ("userId", cd_userId (contextData_of (world s)))] →
            ∀ v, field = Some v →
              truthy v = true
              ∧ ∃ context, current (world s) = Yields (Some context)
                           ∧ get context key = Yields v).
  { clear. intros key field Hin v Hv. unfold contextData_of in Hin.
    destruct (current (world s)) as [[context|]|exn];
      [|repeat (apply elem_of_cons in Hin as [[= -> ->]|Hin]; [discriminate|]);
         by apply elem_of_nil in Hin ..].
    destruct (get context "traceId") as [t|] eqn:Et;
      [|repeat (apply elem_of_cons in Hin as [[= -> ->]|Hin]; [discriminate|]);
         by apply elem_of_nil in Hin].
    destruct (get context "requestId") as [r|] eqn:Er;
      [|repeat (apply elem_of_cons in Hin as [[= -> ->]|Hin]; [discriminate|]);
         by apply elem_of_nil in Hin].
    destruct (get context "userId") as [u|] eqn:Eu;
      [|repeat (apply elem_of_cons in Hin as [[= -> ->]|Hin]; [discriminate|]);
         by apply elem_of_nil in Hin].
    simpl in Hin.
    repeat (apply elem_of_cons in Hin as [[= -> ->]|Hin]);
      [| | |by apply elem_of_nil in Hin].
    - destruct (truthy t) eqn:T; [|discriminate]. injection Hv as <-. eauto.
    - destruct (truthy r) eqn:T; [|discriminate]. injection Hv as <-. eauto.
    - destruct (truthy u) eqn:T; [|discriminate]. injection Hv as <-. eauto. }
  destruct (enrichWithContext o).
  - by apply (Hcd key field).
  - simpl in Hin.
    repeat (apply elem_of_cons in Hin as [[= -> ->]|Hin]; [discriminate|]).
    by apply elem_of_nil in Hin.
Qed.

(** ** [error()] against the other methods *)

Lemma error_metadata_other_keys (errorData metadata : option Metadata) key :
  key ≠ "error" →
  error_metadata errorData metadata !! key = default ∅ metadata !! key.
Proof.
  intros Hkey. unfold error_metadata.
  assert (E : spread_opt ∅ metadata = default ∅ metadata).
  { destruct metadata as [md|]; simpl; [apply spread_empty|done]. }
  rewrite E. destruct errorData as [d|]; simpl; [|done].
  unfold spread. rewrite lookup_union, lookup_singleton_ne by done.
  by rewrite (left_id_L None (∪)).
Qed.

(** X11. Passing an error value changes nothing but the error field: when
    [error(message, errorValue, metadata)] gets as far as [log] (its value
    is falsy, an [Error], or convertible by [String()]), its record has
    level [error], the given message, and the same timestamp, context
    fields and metadata field as the record built for the same message
    and metadata at level [error] without an error value. *)
Theorem X11_error_only_sets_error_field s this a o cm message err metadata :
  is_logger s this a o cm →
  reaches_log (call_error message err metadata) →
  ∃ e1 e2,
    sinkCalls (state_of (error this message err metadata s))
    = (sinkCalls s ++ [e1])%list
    ∧ buildLogEntry this Err message metadata s = Returned e2 s
    ∧ e_level e1 = Err ∧ e_message e1 = message
    ∧ e_timestamp e1 = e_timestamp e2
    ∧ e_traceId e1 = e_traceId e2
    ∧ e_requestId e1 = e_requestId e2
    ∧ e_userId e1 = e_userId e2
    ∧ e_metadata e1 = e_metadata e2.
Proof.
  intros H Hreach.
  destruct (reaches_log_metadata o _ Hreach) as [md Hmd]. simpl in Hmd.
  destruct (serialized_of o err) as [errorData|exn] eqn:Hser; [|discriminate].
  eexists _, _.
  rewrite (error_ok _ _ _ _ _ _ _ _ _ H Hser), call_output_sinkCalls.
  split; [reflexivity|]. split; [by eapply buildLogEntry_ok|].
  destruct (entry_of_base o cm (world s) Err message
              (Some (error_metadata errorData metadata))) as (-> & -> & ->).
  destruct (entry_of_base o cm (world s) Err message metadata) as (_ & _ & ->).
  destruct (entry_of_context o cm (world s) Err message
              (Some (error_metadata errorData metadata))) as (-> & -> & ->).
  destruct (entry_of_context o cm (world s) Err message metadata) as (-> & -> & ->).
  repeat (split; [reflexivity|]).
  rewrite !entry_of_metadata.
  assert (E : delete "error" (merged o cm (Some (error_metadata errorData metadata)))
              = delete "error" (merged o cm metadata)).
  { apply map_eq. intros key. destruct (decide (key = "error")) as [->|Hkey].
    - by rewrite !lookup_delete_eq.
    - rewrite !lookup_delete_ne by done. rewrite !merged_lookup. simpl.
      by rewrite error_metadata_other_keys. }
  by rewrite E.
Qed.

(** X12. [error()] with a falsy error value (none, [null], [false], [0],
    [NaN], the empty string) is an [error]-level [log] call with the same
    message and metadata. *)
Theorem X12_error_without_value s this a o cm message err metadata :
  is_logger s this a o cm →
  truthy err = false →
  error this message err metadata s = log this Err message metadata s.
Proof.
  intros H Hfalsy.
  assert (Hser : serialized_of o err = Yields None)
    by (unfold serialized_of; by rewrite Hfalsy).
  rewrite (error_ok _ _ _ _ _ _ _ _ _ H Hser), (log_ok _ _ _ _ _ _ _ _ H),
    error_level_passes.
  f_equal. unfold entry_of.
  assert (E : merged o cm (Some (error_metadata None metadata)) = merged o cm metadata).
  { unfold error_metadata.
    unfold merged, spread_opt, spread. destruct metadata as [md|]; simpl.
    - by rewrite (right_id_L ∅ (∪) md).
    - by rewrite (left_id_L ∅ (∪)). }
  by rewrite E.
Qed.

(** X13. [includeStackTrace] decides about the key [stack] and about
    nothing else: two loggers given the same error value either both
    throw the same exception (the value is not an [Error] and [String()]
    cannot convert it), or both return nothing (the value is falsy), or
    return objects that agree on every key other than [stack]; and
    whatever the option, the object for a value that is not an [Error] is
    the same for both and has no [stack]. *)
Theorem X13_stack_option_is_local s t1 a1 o1 cm1 t2 a2 o2 cm2 err :
  is_logger s t1 a1 o1 cm1 →
  is_logger s t2 a2 o2 cm2 →
  (∃ exn,
     serializeError t1 err s = Thrown exn s
     ∧ serializeError t2 err s = Thrown exn s
     ∧ truthy err = true ∧ instanceofError err = false
     ∧ String_ err = Raises exn)
  ∨ (∃ r1 r2,
       serializeError t1 err s = Returned r1 s
       ∧ serializeError t2 err s = Returned r2 s
       ∧ match r1, r2 with
         | Some d1, Some d2 =>
             (∀ key, key ≠ "stack" → d1 !! key = d2 !! key)
             ∧ (instanceofError err = false → d1 = d2 ∧ d1 !! "stack" = None)
         | None, None => truthy err = false
         | _, _ => False
         end).
Proof.
  intros H1 H2.
  rewrite (serializeError_ok _ _ _ _ _ _ H1), (serializeError_ok _ _ _ _ _ _ H2).
  unfold serialized_of, call.
  destruct (truthy err) eqn:T; [|right; by eexists _, _].
  destruct (instanceofError err) eqn:I.
  - right. destruct err; try discriminate. eexists _, _.
    split; [reflexivity|]. split; [reflexivity|]. split; [|done].
    intros key Hkey. rewrite !serialized_lookup. by repeat case_decide.
  - destruct (String_ err) as [text|exn] eqn:E.
    + right. destruct err; try discriminate; eexists _, _;
        (split; [reflexivity|]); (split; [reflexivity|]);
        (split; [done|]); intros _; (split; [done|]); by simplify_map_eq.
    + left. exists exn. destruct err; try discriminate; by repeat split.
Qed.

(** ** Several calls *)

Lemma invoke_custom s this a o cm c f metadata :
  is_logger s this a o cm →
  output o = Custom f →
  (∀ e w, (f e w).1 = Normal) →
  log_metadata o c = Yields metadata →
  invoke this c s
  = if LOG_LEVELS (call_level c) >=? LOG_LEVELS (minLevel o)
    then Returned tt
           {| heap := heap s;
              world := (f (entry_of o cm (world s) (call_level c) (call_message c)
                             metadata) (world s)).2;
              sinkCalls := sinkCalls s
                ++ [entry_of o cm (world s) (call_level c) (call_message c) metadata] |}
    else Returned tt s.
Proof.
  intros H Hout Hnormal Hmd. rewrite (invoke_ok _ _ _ _ _ _ H), Hmd.
  destruct (LOG_LEVELS (call_level c) >=? LOG_LEVELS (minLevel o)); [|done].
  unfold call_output. rewrite Hout. simpl.
  specialize (Hnormal (entry_of o cm (world s) (call_level c) (call_message c)
                         metadata) (world s)).
  destruct (f _ (world s)) as [r w]. simpl in *. by subst r.
Qed.

(** X14. Calls made one after the other on a logger whose sink does not
    throw, each getting as far as [log], reach the sink in call order,
    each at most once: the levels and messages the sink has seen
    afterwards are those it had seen before, followed by those of exactly
    the calls whose level passes the threshold.  The run returns and the
    heap is untouched. *)
Theorem X14_calls_in_order s this a o cm f (calls : list Call) :
  is_logger s this a o cm →
  output o = Custom f →
  (∀ e w, (f e w).1 = Normal) →
  Forall reaches_log calls →
  ∃ s',
    invoke_all this calls s = Returned tt s'
    ∧ heap s' = heap s
    ∧ (λ e, (e_level e, e_message e)) <$> sinkCalls s'
      = (((λ e, (e_level e, e_message e)) <$> sinkCalls s)
         ++ ((λ c, (call_level c, call_message c))
             <$> filter (λ c, LOG_LEVELS (minLevel o) <= LOG_LEVELS (call_level c))
                   calls))%list.
Proof.
  intros H Hout Hnormal Hreach. revert s H.
  induction Hreach as [|c calls Hc Hcalls IH]; intros s H.
  - exists s. split; [reflexivity|]. split; [reflexivity|].
    by rewrite filter_nil, fmap_nil, app_nil_r.
  - simpl.
    destruct (reaches_log_metadata o c Hc) as [metadata Hmd].
    pose proof (invoke_custom s this a o cm c f metadata H Hout Hnormal Hmd) as Hrun1.
    destruct (Z.geb_spec (LOG_LEVELS (call_level c)) (LOG_LEVELS (minLevel o)))
      as [Hge|Hlt].
    + erewrite bind_Returned; last by exact Hrun1.
      match type of Hrun1 with
      | _ = Returned tt ?s1 =>
          destruct (IH s1) as (s' & Hrun & Hheap & Hseen);
            [by apply (is_logger_heap s s1)|]
      end.
      exists s'. split; [exact Hrun|]. split; [exact Hheap|].
      rewrite Hseen. simpl. rewrite fmap_app. simpl.
      rewrite filter_cons_True by lia. simpl.
      destruct (entry_of_base o cm (world s) (call_level c) (call_message c) metadata)
        as (-> & -> & _).
      by rewrite <- app_assoc.
    + erewrite bind_Returned; last by exact Hrun1.
      destruct (IH s H) as (s' & Hrun & Hheap & Hseen).
      exists s'. split; [exact Hrun|]. split; [exact Hheap|].
      rewrite Hseen. by rewrite filter_cons_False by lia.
Qed.

(** ** The closure in [defaultOutput] *)

(** X15. A logger constructed without an [output] option logs through
    its own [defaultOutput]; a child of it holds that same function, which
    closes over the parent and not over the child: the child's output is
    the parent's [defaultOutput], and both have the same option values. *)
Theorem X15_child_keeps_parent_closure s (options : StruktosLoggerOptions) cm metadata :
  opt_output options = None →
  ∃ parent ap kid ak s' o,
    (new_StruktosLogger options cm ≫= λ parent, child parent metadata) s
    = Returned kid s'
    ∧ is_logger s' parent ap o cm
    ∧ is_logger s' kid ak o (spread cm metadata)
    ∧ output o = DefaultOutputOf parent
    ∧ parent ≠ kid.
Proof.
  intros Hnone.
  set (o := {| minLevel := default Info (opt_minLevel options);
               prettyPrint := default false (opt_prettyPrint options);
               includeStackTrace := default true (opt_includeStackTrace options);
               defaultMetadata := default ∅ (opt_defaultMetadata options);
               output := DefaultOutputOf (S (length (heap s)));
               enrichWithContext := default true (opt_enrichWithContext options) |}
             : RequiredOptions (Ext:=Ext)).
  assert (Hnew : new_StruktosLogger options cm s
                 = Returned (S (length (heap s)))
                     {| heap := heap s ++ [OptionsObj o; LoggerObj (length (heap s)) cm];
                        world := world s; sinkCalls := sinkCalls s |}).
  { unfold new_StruktosLogger, o. by rewrite Hnone. }
  pose proof (is_logger_fresh (heap s) o cm (world s) (sinkCalls s)) as Hparent.
  pose proof (child_ok _ _ _ _ _ metadata Hparent) as Hkid. simpl in Hkid.
  eexists _, _, _, _, _, o.
  split.
  { erewrite bind_Returned; last by exact Hnew. exact Hkid. }
  split; [exact (is_logger_grow _ _ _ _ _ _ _ _ Hparent)|].
  split; [apply is_logger_fresh|].
  split; [reflexivity|].
  rewrite length_app. simpl. lia.
Qed.

End MoreLoggerFacts.

Section MoreSamples.

#[local] Existing Instance sample_engine.

(** X2 on the heap of the plain logger. *)
Lemma X2_heap_wf_invariant_witness :
  heap_wf plain_state
  ∧ heap_wf (state_of (child 1 {["module" := JStr "auth"]} plain_state)).
Proof.
  assert (H : heap_wf plain_state).
  { apply (heap_wf_new (empty_state world_without_context)
             (mkOptions None None None None (Some quiet_sink) None) ∅).
    - apply heap_wf_empty.
    - exact I. }
  split; [exact H|].
  destruct (X2_heap_wf_invariant plain_state H) as (_ & _ & Hchild & _).
  apply Hchild.
Defined.



(** X5 on the logger with threshold [warn]. *)
Lemma X5_filter_upward_closed_witness :
  is_logger warn_state 1 0 warn_options ∅
  ∧ shouldLog 1 Err warn_state = Returned true warn_state.
Proof.
  assert (H : is_logger warn_state 1 0 warn_options ∅) by (split; reflexivity).
  split; [exact H|].
  destruct (X5_filter_upward_closed warn_state 1 0 warn_options ∅ H) as (_ & Herr & _).
  exact Herr.
Defined.

(** X6 on the plain logger. *)
Lemma X6_child_composition_witness :
  is_logger plain_state 1 0 plain_options ∅
  ∧ ∃ g ag sg,
      (child 1 {["module" := JStr "auth"]}
         ≫= λ first, child first {["op" := JStr "login"]}) plain_state
      = Returned g sg
      ∧ is_logger sg g ag plain_options
          (spread (spread ∅ {["module" := JStr "auth"]}) {["op" := JStr "login"]}).
Proof.
  assert (H : is_logger plain_state 1 0 plain_options ∅) by (split; reflexivity).
  split; [exact H|].
  destruct (X6_child_composition plain_state 1 0 plain_options ∅
              {["module" := JStr "auth"]} {["op" := JStr "login"]} H)
    as (g & ag & sg & _ & _ & _ & Hrun & _ & Hg & _).
  exists g, ag, sg. split; [exact Hrun|exact Hg].
Defined.

(** X7 on the plain logger. *)
Lemma X7_child_empty_witness :
  is_logger plain_state 1 0 plain_options ∅
  ∧ ∃ this' a' s',
      child 1 ∅ plain_state = Returned this' s'
      ∧ is_logger s' this' a' plain_options ∅.
Proof.
  assert (H : is_logger plain_state 1 0 plain_options ∅) by (split; reflexivity).
  split; [exact H|].
  destruct (X7_child_empty plain_state 1 0 plain_options ∅ H)
    as (this' & a' & s' & Hrun & Hl & _).
  exists this', a', s'. split; [exact Hrun|exact Hl].
Defined.

(** X8 inside an active context: a metadata key [traceId] does not
    replace the trace id of the context. *)
Lemma X8_metadata_stays_nested_witness :
  is_logger context_state 1 0 plain_options ∅
  ∧ ∃ e1 e2,
      buildLogEntry 1 Info "m" None context_state = Returned e1 context_state
      ∧ buildLogEntry 1 Info "m"
          (Some {["traceId" := JStr "forged"; "level" := JStr "error"]}) context_state
        = Returned e2 context_state
      ∧ e_traceId e1 = e_traceId e2
      ∧ e_level e2 = Info.
Proof.
  assert (H : is_logger context_state 1 0 plain_options ∅) by (split; reflexivity).
  split; [exact H|].
  destruct (X8_metadata_stays_nested context_state 1 0 plain_options ∅ Info "m" None
              (Some {["traceId" := JStr "forged"; "level" := JStr "error"]}) H)
    as (e1 & e2 & H1 & H2 & _ & Hlevel & _ & _ & _ & Htrace & _).
  exists e1, e2. repeat split; assumption.
Defined.

(** X9 inside an active context, enrichment switched off. *)
Lemma X9_enrichment_off_witness :
  is_logger silent_state 1 0 silent_options ∅
  ∧ ∃ entry,
      buildLogEntry 1 Info "m" None silent_state = Returned entry silent_state
      ∧ e_traceId entry = None.
Proof.
  assert (H : is_logger silent_state 1 0 silent_options ∅) by (split; reflexivity).
  split; [exact H|].
  destruct (X9_enrichment_off silent_state 1 0 silent_options ∅ Info "m" None H eq_refl)
    as (entry & Hrun & Htrace & _).
  exists entry. repeat split; assumption.
Defined.

(** X10 inside an active context. *)
Lemma X10_context_fields_truthy_witness :
  is_logger context_state 1 0 plain_options ∅
  ∧ ∃ entry,
      buildLogEntry 1 Info "m" None context_state = Returned entry context_state
      ∧ ∀ v, e_traceId entry = Some v → truthy v = true.
Proof.
  assert (H : is_logger context_state 1 0 plain_options ∅) by (split; reflexivity).
  split; [exact H|].
  destruct (X10_context_fields_truthy context_state 1 0 plain_options ∅ Info "m" None H)
    as (entry & Hrun & Hfields).
  exists entry. split; [exact Hrun|].
  intros v Hv. apply (Hfields "traceId" (e_traceId entry)); [|exact Hv].
  apply list_elem_of_here.
Defined.

(** X11 on the plain logger and [new Error("boom")]. *)
Lemma X11_error_only_sets_error_field_witness :
  is_logger plain_state 1 0 plain_options ∅
  ∧ ∃ e1 e2,
      sinkCalls (state_of (error 1 "failed" boom (Some {["job" := JNum 7]}) plain_state))
      = [e1]
      ∧ buildLogEntry 1 Err "failed" (Some {["job" := JNum 7]}) plain_state
        = Returned e2 plain_state
      ∧ e_metadata e1 = e_metadata e2.
Proof.
  assert (H : is_logger plain_state 1 0 plain_options ∅) by (split; reflexivity).
  split; [exact H|].
  destruct (X11_error_only_sets_error_field plain_state 1 0 plain_options ∅ "failed"
              boom (Some {["job" := JNum 7]}) H (or_intror (or_introl eq_refl)))
    as (e1 & e2 & Hcalls & Hbuild & _ & _ & _ & _ & _ & _ & Hmd).
  exists e1, e2. repeat split; assumption.
Defined.

(** X12 on the plain logger: [error("msg")]. *)
Lemma X12_error_without_value_witness :
  is_logger plain_state 1 0 plain_options ∅
  ∧ error 1 "msg" JUndefined None plain_state = log 1 Err "msg" None plain_state.
Proof.
  assert (H : is_logger plain_state 1 0 plain_options ∅) by (split; reflexivity).
  split; [exact H|].
  apply (X12_error_without_value plain_state 1 0 plain_options ∅ "msg" JUndefined None H).
  reflexivity.
Defined.

(** X13 on two loggers of one heap, with and without stack traces. *)
Lemma X13_stack_option_is_local_witness :
  is_logger two_loggers_state 1 0 plain_options ∅
  ∧ is_logger two_loggers_state 3 2 stackless_options ∅
  ∧ ∃ r1 r2,
      serializeError 1 boom two_loggers_state = Returned r1 two_loggers_state
      ∧ serializeError 3 boom two_loggers_state = Returned r2 two_loggers_state.
Proof.
  assert (H1 : is_logger two_loggers_state 1 0 plain_options ∅) by (split; reflexivity).
  assert (H2 : is_logger two_loggers_state 3 2 stackless_options ∅)
    by (split; reflexivity).
  split; [exact H1|]. split; [exact H2|].
  destruct (X13_stack_option_is_local two_loggers_state 1 0 plain_options ∅
              3 2 stackless_options ∅ boom H1 H2)
    as [(exn & _ & _ & _ & Hne & _)|(r1 & r2 & Hr1 & Hr2 & _)]; [discriminate|].
  exists r1, r2. split; [exact Hr1|exact Hr2].
Defined.

(** X14 on the logger with threshold [warn]: of four calls, the sink sees
    the two that pass, in order. *)
Lemma X14_calls_in_order_witness :
  is_logger warn_state 1 0 warn_options ∅
  ∧ ∃ s',
      invoke_all 1 [call_debug "a" None; call_warn "b" None;
                    call_info "c" None; call_error "d" JUndefined None] warn_state
      = Returned tt s'
      ∧ (λ e, (e_level e, e_message e)) <$> sinkCalls s' = [(Warn, "b"); (Err, "d")].
Proof.
  assert (H : is_logger warn_state 1 0 warn_options ∅) by (split; reflexivity).
  split; [exact H|].
  destruct (X14_calls_in_order warn_state 1 0 warn_options ∅ (λ _ w, (Normal, w))
              [call_debug "a" None; call_warn "b" None;
               call_info "c" None; call_error "d" JUndefined None] H eq_refl)
    as (s' & Hrun & _ & Hcalls); [done| |].
  { repeat constructor. }
  exists s'. split; [exact Hrun|]. rewrite Hcalls. reflexivity.
Defined.

(** X15 on [createLogger()] followed by [child({module: "auth"})]. *)
Lemma X15_child_keeps_parent_closure_witness :
  ∃ parent kid ak s' o,
    (new_StruktosLogger (Ext:=unit) no_options ∅
       ≫= λ parent, child parent {["module" := JStr "auth"]})
      (empty_state world_without_context)
    = Returned kid s'
    ∧ is_logger s' kid ak o (spread ∅ {["module" := JStr "auth"]})
    ∧ output o = DefaultOutputOf parent
    ∧ parent ≠ kid.
Proof.
  destruct (X15_child_keeps_parent_closure (empty_state world_without_context)
              no_options ∅ {["module" := JStr "auth"]} eq_refl)
    as (parent & ap & kid & ak & s' & o & Hrun & _ & Hkid & Hout & Hne).
  exists parent, kid, ak, s', o.
  split; [exact Hrun|]. split; [exact Hkid|]. split; [exact Hout|exact Hne].
Defined.

(** X16 on the plain logger: [error("msg", {toString: 1})]. *)
Lemma X16_unconvertible_error_value_witness :
  is_logger plain_state 1 0 plain_options ∅
  ∧ error 1 "msg" unprintable None plain_state
    = Thrown conversion_error plain_state.
Proof.
  assert (H : is_logger plain_state 1 0 plain_options ∅) by (split; reflexivity).
  split; [exact H|].
  apply (X16_unconvertible_error_value plain_state 1 0 plain_options ∅ "msg"
           unprintable conversion_error None H eq_refl eq_refl eq_refl).
Defined.

End MoreSamples.
